(** * BFT cover: a shallow embedding of [cover.py]

    The Home Assistant platform [cover.py] drives one motorised gate through
    the vendor's HTTP API.  This development embeds the class [BftCover]:
    the object's attributes are a record, every method is a computation in a
    small state-and-exception monad over the object and the outside world
    (requests sent, timers of the host, log records), and the answers of the
    remote end are an oracle. *)

From Stdlib Require Import ZArith String List Bool Lia.
From stdpp Require Import base option gmap strings.
Import ListNotations.

Local Open Scope string_scope.
Local Open Scope Z_scope.

(** ** Python values *)

(** The exception classes a run of the module can meet.  [ReadTimeout] and
    [JSONDecodeError] stand for [requests.exceptions.ReadTimeout] and the
    [ValueError] of [Response.json]; neither is a [ConnectionError] nor a
    [KeyError]. *)
Inductive exn : Type :=
| ConnectionError
| ReadTimeout
| JSONDecodeError
| KeyError (key : string)
| AttributeError (attribute : string)
| TypeError.

Inductive result (A : Type) : Type :=
| Ok (a : A)
| Raise (e : exn).
Arguments Ok {A} a.
Arguments Raise {A} e.

(** A leaf of a decoded JSON object: an integer or a string.  The telemetry
    and the command results are flat objects of such leaves; floats, booleans
    and nested values are left out. *)
Inductive jval : Type :=
| JInt (z : Z)
| JStr (s : string).

(** [v == n] for an int literal [n]: a [str] never equals an [int]. *)
Definition py_eq_int (v : jval) (n : Z) : bool :=
  match v with
  | JInt z => z =? n
  | JStr _ => false
  end.

(** [v > n] for an int literal [n]: ordering a [str] against an [int]
    raises [TypeError]. *)
Definition py_gt_int (v : jval) (n : Z) : result bool :=
  match v with
  | JInt z => Ok (z >? n)
  | JStr _ => Raise TypeError
  end.

(** [v == s] for a str literal [s]. *)
Definition py_eq_str (v : jval) (s : string) : bool :=
  match v with
  | JInt _ => false
  | JStr t => String.eqb t s
  end.

(** [str(x)] as [str.format] applies it to a value that may be [None]. *)
Definition py_str (x : option string) : string :=
  match x with
  | Some s => s
  | None => "None"
  end.

(** [x in l] for a list of str literals; [None] equals no str. *)
Definition py_in (x : option string) (l : list string) : bool :=
  match x with
  | Some s => existsb (String.eqb s) l
  | None => false
  end.

(** An instance attribute that may never have been assigned. *)
Inductive attr (A : Type) : Type :=
| Unbound
| Bound (a : A).
Arguments Unbound {A}.
Arguments Bound {A} a.

(** ** Module constants *)

(** Modelled from the spec: [STATE_OPEN] and [STATE_CLOSED] are imported from
    [homeassistant.const], which is not part of the sources; the discrete
    states exposed to the host are closed/open/moving/stopped/offline. *)
Definition STATE_OPEN : string := "open".
Definition STATE_CLOSED : string := "closed".

Definition DEFAULT_NAME : string := "BFT".
Definition STATE_MOVING : string := "moving".
Definition STATE_OFFLINE : string := "offline".
Definition STATE_STOPPED : string := "stopped".

Definition STATES_MAP : gmap string string :=
  <["open" := STATE_OPEN]>
    (<["moving" := STATE_MOVING]>
       (<["closed" := STATE_CLOSED]>
          (<["stopped" := STATE_STOPPED]> ∅))).

(** ** The object and the world around it *)

Definition handle : Type := nat.

Record BftCover : Type := mkBftCover {
  particle_url : string;
  dispatcher_api_url : string;
  _name : option string;
  device_name : option string;
  device_id : option string;
  access_token : option string;
  obtained_token : bool;
  _obtained_token : attr bool;
  _username : option string;
  _password : option string;
  _state : option string;
  time_in_state : option Z;
  _unsub_listener_cover : option handle;
  _available : bool
}.

Inductive http_method : Type := GET | POST | DELETE.

Record request : Type := mkRequest {
  req_method : http_method;
  req_url : string;
  req_timeout : option Z
}.

Inductive level : Type := DEBUG | WARNING | ERROR.

(** What a run leaves outside the object: the requests issued (latest
    first), the number of listeners registered with the host's time service,
    the listeners removed (latest first) and the log records (latest
    first). *)
Record World : Type := mkWorld {
  requests : list request;
  tracked : nat;
  unsubscribed : list handle;
  logged : list (level * string)
}.

(** ** The remote end *)

Inductive conn_failure : Type := Refused | TimedOut.

Definition exn_of_failure (f : conn_failure) : exn :=
  match f with
  | Refused => ConnectionError
  | TimedOut => ReadTimeout
  end.

(** One registered automation of the users listing. *)
Record automation : Type := mkAutomation {
  uuid : string;
  info_name : string
}.

(** The answers of the vendor API.  Every oracle takes the url and the
    number of requests issued before this one.  [inl f] is a request that
    fails in transport; [inr None] is a response whose body [Response.json]
    cannot decode; for the users listing [Some None] is a decoded body
    without [data] or [automations]. *)
Record Server : Type := mkServer {
  post_oauth_token : string -> nat -> conn_failure + option (gmap string string);
  get_users : string -> nat -> conn_failure + option (option (list automation));
  get_execute : string -> nat -> conn_failure + option (gmap string jval);
  delete_access_token : string -> nat -> conn_failure + string
}.

(** ** Computations on the object *)

Record outcome (A : Type) : Type := Out {
  value : result A;
  object : BftCover;
  world : World
}.
Arguments Out {A} value object world.
Arguments value {A} o.
Arguments object {A} o.
Arguments world {A} o.

(** A method body: it reads and writes the attributes of [self], acts on the
    world, and returns or raises.  What it did before raising stays done. *)
Definition M (A : Type) : Type := BftCover -> World -> outcome A.

Definition ret {A : Type} (a : A) : M A :=
  fun self w => Out (Ok a) self w.

Definition raise {A : Type} (e : exn) : M A :=
  fun self w => Out (Raise e) self w.

Definition bind {A B : Type} (m : M A) (k : A -> M B) : M B :=
  fun self w =>
    let o := m self w in
    match value o with
    | Ok a => k a (object o) (world o)
    | Raise e => Out (Raise e) (object o) (world o)
    end.

Definition lift {A : Type} (r : result A) : M A :=
  fun self w => Out r self w.

(** [try: body  except ...:] where [handlers e] is the clause that matches
    [e], if one does. *)
Definition try_except {A : Type} (body : M A) (handlers : exn -> option (M A)) : M A :=
  fun self w =>
    let o := body self w in
    match value o with
    | Ok _ => o
    | Raise e =>
        match handlers e with
        | Some h => h (object o) (world o)
        | None => o
        end
    end.

Definition get_self : M BftCover :=
  fun self w => Out (Ok self) self w.

Definition set_self (f : BftCover -> BftCover) : M unit :=
  fun self w => Out (Ok tt) (f self) w.

Declare Scope cover_scope.
Delimit Scope cover_scope with cover.
Notation "x <- m ;; k" := (bind m (fun x => k))
  (at level 100, m at next level, k at level 200, right associativity) : cover_scope.
Notation "m ;; k" := (bind m (fun _ => k))
  (at level 100, k at level 200, right associativity) : cover_scope.
Local Open Scope cover_scope.

(** Attribute assignments. *)
Definition with_name (v : option string) (c : BftCover) : BftCover :=
  mkBftCover (particle_url c) (dispatcher_api_url c) v (device_name c)
    (device_id c) (access_token c) (obtained_token c) (_obtained_token c)
    (_username c) (_password c) (_state c) (time_in_state c)
    (_unsub_listener_cover c) (_available c).

Definition with_device_id (v : option string) (c : BftCover) : BftCover :=
  mkBftCover (particle_url c) (dispatcher_api_url c) (_name c) (device_name c)
    v (access_token c) (obtained_token c) (_obtained_token c)
    (_username c) (_password c) (_state c) (time_in_state c)
    (_unsub_listener_cover c) (_available c).

Definition with_access_token (v : option string) (c : BftCover) : BftCover :=
  mkBftCover (particle_url c) (dispatcher_api_url c) (_name c) (device_name c)
    (device_id c) v (obtained_token c) (_obtained_token c)
    (_username c) (_password c) (_state c) (time_in_state c)
    (_unsub_listener_cover c) (_available c).

Definition with_obtained_token_ (v : attr bool) (c : BftCover) : BftCover :=
  mkBftCover (particle_url c) (dispatcher_api_url c) (_name c) (device_name c)
    (device_id c) (access_token c) (obtained_token c) v
    (_username c) (_password c) (_state c) (time_in_state c)
    (_unsub_listener_cover c) (_available c).

Definition with_state (v : option string) (c : BftCover) : BftCover :=
  mkBftCover (particle_url c) (dispatcher_api_url c) (_name c) (device_name c)
    (device_id c) (access_token c) (obtained_token c) (_obtained_token c)
    (_username c) (_password c) v (time_in_state c)
    (_unsub_listener_cover c) (_available c).

Definition with_unsub_listener_cover (v : option handle) (c : BftCover) : BftCover :=
  mkBftCover (particle_url c) (dispatcher_api_url c) (_name c) (device_name c)
    (device_id c) (access_token c) (obtained_token c) (_obtained_token c)
    (_username c) (_password c) (_state c) (time_in_state c)
    v (_available c).

Definition with_available (v : bool) (c : BftCover) : BftCover :=
  mkBftCover (particle_url c) (dispatcher_api_url c) (_name c) (device_name c)
    (device_id c) (access_token c) (obtained_token c) (_obtained_token c)
    (_username c) (_password c) (_state c) (time_in_state c)
    (_unsub_listener_cover c) v.

(** Actions on the world. *)
Definition record_log (l : level) (msg : string) (w : World) : World :=
  mkWorld (requests w) (tracked w) (unsubscribed w) ((l, msg) :: logged w).

Definition record_request (r : request) (w : World) : World :=
  mkWorld (r :: requests w) (tracked w) (unsubscribed w) (logged w).

Definition record_tracked (w : World) : World :=
  mkWorld (requests w) (S (tracked w)) (unsubscribed w) (logged w).

Definition record_unsubscribed (h : handle) (w : World) : World :=
  mkWorld (requests w) (tracked w) (h :: unsubscribed w) (logged w).

Definition log (l : level) (msg : string) : M unit :=
  fun self w => Out (Ok tt) self (record_log l msg w).

(** [requests.get], [requests.post] and [requests.delete]: the request is
    issued, then the remote end answers or the transport fails. *)
Definition http {B : Type} (meth : http_method) (url : string)
    (timeout : option Z) (answer : nat -> conn_failure + B) : M B :=
  fun self w =>
    let w' := record_request (mkRequest meth url timeout) w in
    match answer (length (requests w)) with
    | inl f => Out (Raise (exn_of_failure f)) self w'
    | inr b => Out (Ok b) self w'
    end.

(** [Response.json()]. *)
Definition json {B : Type} (body : option B) : M B :=
  match body with
  | Some b => ret b
  | None => raise JSONDecodeError
  end.

(** [d[key]] on a dict. *)
Definition getitem {V : Type} (d : gmap string V) (key : string) : M V :=
  match d !! key with
  | Some v => ret v
  | None => raise (KeyError key)
  end.

(** [track_utc_time_change(hass, callback)]: registers a listener and returns
    the function that removes it, here named by a fresh handle. *)
Definition track_utc_time_change : M handle :=
  fun self w => Out (Ok (tracked w)) self (record_tracked w).

(** Calling the function returned by [track_utc_time_change]. *)
Definition call_unsub (h : handle) : M unit :=
  fun self w => Out (Ok tt) self (record_unsubscribed h w).

(** [a and b] and [a or b] when an operand can raise: [b] is evaluated only
    when [a] does not decide. *)
Definition and_then (a b : result bool) : result bool :=
  match a with
  | Ok true => b
  | Ok false => Ok false
  | Raise e => Raise e
  end.

Definition or_else (a b : result bool) : result bool :=
  match a with
  | Ok true => Ok true
  | Ok false => b
  | Raise e => Raise e
  end.

(** ** The methods of [BftCover] *)

(** [_get_gate_status]: gate status from position and velocity. *)
Definition _get_gate_status (status : gmap string jval) : M (option string) :=
  log DEBUG "Current Status: %s" ;;
  first_engine_pos_int <- getitem status "first_engine_pos_int" ;;
  second_engine_pos_int <- getitem status "second_engine_pos_int" ;;
  first_engine_vel_int <- getitem status "first_engine_vel_int" ;;
  second_engine_vel_int <- getitem status "second_engine_vel_int" ;;
  if (py_eq_int first_engine_pos_int 100 && py_eq_int second_engine_pos_int 100)
     && (py_eq_int first_engine_vel_int 0 && py_eq_int second_engine_vel_int 0)
  then log WARNING "open" ;; ret (STATES_MAP !! "open")
  else
    stopped <- lift
      (and_then
         (Ok (py_eq_int first_engine_vel_int 0 && py_eq_int second_engine_vel_int 0))
         (or_else (py_gt_int first_engine_pos_int 0)
                  (py_gt_int second_engine_pos_int 0))) ;;
    if stopped : bool
    then log WARNING "stopped" ;; ret (STATES_MAP !! "stopped")
    else
      if (py_eq_int first_engine_pos_int 0 && py_eq_int second_engine_pos_int 0)
         && (py_eq_int first_engine_vel_int 0 && py_eq_int second_engine_vel_int 0)
      then log WARNING "closed" ;; ret (STATES_MAP !! "closed")
      else
        moving <- lift
          (or_else (py_gt_int first_engine_vel_int 0)
                   (py_gt_int second_engine_vel_int 0)) ;;
        if moving : bool
        then log WARNING "moving" ;; ret (STATES_MAP !! "moving")
        else ret None.

(** [_start_watcher]. *)
Definition _start_watcher (command : string) : M unit :=
  log DEBUG "Starting Watcher for command: %s " ;;
  self <- get_self ;;
  match _unsub_listener_cover self with
  | None =>
      h <- track_utc_time_change ;;
      set_self (with_unsub_listener_cover (Some h))
  | Some _ => ret tt
  end.

(** The properties [name], [available] and [is_closed]. *)
Definition name (self : BftCover) : option string := _name self.

Definition available (self : BftCover) : bool := _available self.

Definition is_closed (self : BftCover) : option bool :=
  match _state self with
  | None => None
  | Some s => Some (String.eqb s STATE_CLOSED)
  end.

(** The loop of [get_device_id] over the automations of the listing. *)
Fixpoint find_automation (wanted : option string) (l : list automation) : M (option string) :=
  match l with
  | [] => ret None
  | automations :: rest =>
      if match wanted with
         | Some n => String.eqb (info_name automations) n
         | None => false
         end
      then
        log DEBUG ("UUID: " ++ uuid automations) ;;
        log DEBUG ("Device Name: " ++ info_name automations) ;;
        ret (Some (uuid automations))
      else find_automation wanted rest
  end.

Section Cover.

Variable srv : Server.

(** [get_token]: a new token for this session; [None] when the answer has
    no [access_token]. *)
Definition get_token : M (option string) :=
  self <- get_self ;;
  let url := particle_url self ++ "/oauth/token" in
  resp <- http POST url (Some 10) (post_oauth_token srv url) ;;
  try_except
    (body <- json resp ;;
     token <- getitem body "access_token" ;;
     ret (Some token))
    (fun e =>
       match e with
       | KeyError _ =>
           Some (log ERROR "Unable to retrieve access token %s" ;; ret None)
       | _ => None
       end).

(** [get_device_id]: device id from name. *)
Definition get_device_id : M (option string) :=
  self <- get_self ;;
  let url := particle_url self ++ "/api/v1/users/?access_token="
               ++ py_str (access_token self) in
  resp <- http GET url (Some 10) (get_users srv url) ;;
  body <- json resp ;;
  match body with
  | None => raise (KeyError "data")
  | Some l => find_automation (device_name self) l
  end.

(** [remove_token]: remove the authorization token from the API. *)
Definition remove_token : M string :=
  self <- get_self ;;
  let url := particle_url self ++ "/v1/access_tokens/"
               ++ py_str (access_token self) in
  http DELETE url (Some 10) (delete_access_token srv url).

(** ["Bearer " + self.access_token]: [str + None] raises [TypeError]. *)
Definition bearer (self : BftCover) : result string :=
  match access_token self with
  | Some t => Ok ("Bearer " ++ t)
  | None => Raise TypeError
  end.

(** [_get_variable]: the latest status. *)
Definition _get_variable (var : string) : M (gmap string jval) :=
  self <- get_self ;;
  _ <- lift (bearer self) ;;
  let url := dispatcher_api_url self ++ "/" ++ py_str (device_id self)
               ++ "/execute/" ++ var in
  log DEBUG url ;;
  resp <- http GET url (Some 10) (get_execute srv url) ;;
  json resp.

(** [_put_command]: send a command to the API. *)
Definition _put_command (func : string) : M (gmap string jval) :=
  self <- get_self ;;
  _ <- lift (bearer self) ;;
  let url := dispatcher_api_url self ++ "/" ++ py_str (device_id self)
               ++ "/execute/" ++ func in
  log DEBUG url ;;
  resp <- http GET url (Some 10) (get_execute srv url) ;;
  json resp.

(** [ret.get("status") == "done"]. *)
Definition status_get_is_done (r : gmap string jval) : bool :=
  match r !! "status" with
  | Some v => py_eq_str v "done"
  | None => false
  end.

(** [close_cover]; the result is [None] when the method falls off its end. *)
Definition close_cover : M (option bool) :=
  self <- get_self ;;
  if negb (py_in (_state self) ["close"])
  then
    r <- _put_command "close" ;;
    _start_watcher "close" ;;
    ret (Some (status_get_is_done r))
  else ret None.

(** [open_cover]. *)
Definition open_cover : M (option bool) :=
  self <- get_self ;;
  if negb (py_in (_state self) ["open"])
  then
    r <- _put_command "open" ;;
    _start_watcher "open" ;;
    ret (Some (status_get_is_done r))
  else ret None.

(** [stop_cover]: it subscripts the answer, [ret["status"] == "done"]. *)
Definition stop_cover : M (option bool) :=
  self <- get_self ;;
  if negb (py_in (_state self) ["stopped"])
  then
    r <- _put_command "stop" ;;
    _start_watcher "stop" ;;
    status <- getitem r "status" ;;
    ret (Some (py_eq_str status "done"))
  else ret None.

(** The [try] statement of [update]. *)
Definition update_try : M unit :=
  try_except
    (status <- _get_variable "diagnosis" ;;
     state <- _get_gate_status status ;;
     set_self (with_state state) ;;
     self <- get_self ;;
     log DEBUG (py_str (_state self)) ;;
     set_self (with_available true))
    (fun e =>
       match e with
       | ConnectionError =>
           Some (log ERROR "Unable to connect to server: %(reason)s" ;;
                 set_self (with_state (Some STATE_OFFLINE)))
       | KeyError _ =>
           Some (log WARNING "BFT device %(device)s seems to be offline" ;;
                 set_self (with_state (Some STATE_OFFLINE)))
       | _ => None
       end).

(** [update]: the updated status from the API. *)
Definition update : M unit :=
  update_try ;;
  self <- get_self ;;
  if negb (py_in (_state self) [STATE_MOVING])
  then
    match _unsub_listener_cover self with
    | Some unsub =>
        call_unsub unsub ;;
        set_self (with_unsub_listener_cover None)
    | None => ret tt
    end
  else ret tt.

(** The configuration of one cover, as [setup_platform] builds it. *)
Record Args : Type := mkArgs {
  arg_name : option string;
  arg_device : option string;
  arg_username : option string;
  arg_password : option string;
  arg_access_token : option string
}.

(** The attributes [__init__] assigns before its first call. *)
Definition fresh (args : Args) : BftCover :=
  mkBftCover
    "https://ucontrol-api.bft-automation.com"
    "https://ucontrol-dispatcher.bft-automation.com/automations"
    (arg_name args) (arg_device args) None (arg_access_token args)
    false Unbound (arg_username args) (arg_password args)
    None None None true.

(** The statements of [__init__] after these assignments: the token is
    obtained unless it was supplied, *)
Definition init_token : M unit :=
  self <- get_self ;;
  match access_token self with
  | None =>
      token <- get_token ;;
      set_self (with_access_token token) ;;
      set_self (with_obtained_token_ (Bound true))
  | Some _ => ret tt
  end.

(** the device id is looked up, *)
Definition init_device : M unit :=
  self <- get_self ;;
  match device_id self with
  | None =>
      id <- get_device_id ;;
      set_self (with_device_id id)
  | Some _ => ret tt
  end.

(** and the status is updated for the first time. *)
Definition init_try : M unit :=
  try_except update
    (fun e =>
       match e with
       | ConnectionError =>
           Some (log ERROR "Unable to connect to server: %(reason)s" ;;
                 set_self (with_state (Some STATE_OFFLINE)) ;;
                 set_self (with_available false) ;;
                 set_self (with_name (Some DEFAULT_NAME)))
       | KeyError _ =>
           Some (log WARNING "BFT device %(device)s seems to be offline" ;;
                 set_self (with_name (Some DEFAULT_NAME)) ;;
                 set_self (with_state (Some STATE_OFFLINE)) ;;
                 set_self (with_available false))
       | _ => None
       end).

Definition init_body : M unit :=
  init_token ;;
  init_device ;;
  init_try.

(** [BftCover(hass, args)]: the new object, or the exception that leaves
    the constructor, and the world after it. *)
Definition __init__ (args : Args) (w : World) : result BftCover * World :=
  let o := init_body (fresh args) w in
  match value o with
  | Ok _ => (Ok (object o), world o)
  | Raise e => (Raise e, world o)
  end.

(** [__del__]: try to remove the token. *)
Definition __del__ : M unit :=
  self <- get_self ;;
  match _obtained_token self with
  | Unbound => raise (AttributeError "_obtained_token")
  | Bound obtained =>
      if obtained
      then
        match access_token self with
        | Some _ => remove_token ;; ret tt
        | None => ret tt
        end
      else ret tt
  end.

End Cover.

(** ** The rest of the module *)

Definition ATTR_AVAILABLE : string := "available".
Definition ATTR_TIME_IN_STATE : string := "time_in_state".

(** The properties [should_poll] and [device_class]. *)
Definition should_poll (self : BftCover) : bool := true.

Definition device_class (self : BftCover) : string := "door".

Section Platform.

(** The configuration keys, imported from [homeassistant.const]. *)
Variables CONF_NAME CONF_DEVICE CONF_USERNAME CONF_PASSWORD CONF_ACCESS_TOKEN : string.

(** The property [device_state_attributes]: a dict built from the
    attributes that are not [None]. *)
Definition device_state_attributes (self : BftCover) : gmap string jval :=
  let data : gmap string jval := ∅ in
  let data :=
    match time_in_state self with
    | Some t => <[ATTR_TIME_IN_STATE := JInt t]> data
    | None => data
    end in
  match access_token self with
  | Some t => <[CONF_ACCESS_TOKEN := JStr t]> data
  | None => data
  end.

(** The [args] that [setup_platform] builds from one device configuration. *)
Definition args_of (device_config : gmap string string) : Args :=
  mkArgs (device_config !! CONF_NAME) (device_config !! CONF_DEVICE)
    (device_config !! CONF_USERNAME) (device_config !! CONF_PASSWORD)
    (device_config !! CONF_ACCESS_TOKEN).

Variable srv : Server.

(** The loop of [setup_platform] over [devices.items()]: [covers] is the
    list built so far; an exception of a constructor ends the loop. *)
Fixpoint construct_covers (devices : list (string * gmap string string))
    (covers : list BftCover) (w : World) : result (list BftCover) * World :=
  match devices with
  | [] => (Ok covers, w)
  | (device_name, device_config) :: rest =>
      match __init__ srv (args_of device_config) w with
      | (Ok cover, w') => construct_covers rest (covers ++ [cover]) w'
      | (Raise e, w') => (Raise e, w')
      end
  end.

(** [setup_platform]: [devices] is [config.get(CONF_COVERS)], the device
    configurations in the order of the dict.  [Ok covers] stands for the
    final call [add_entities(covers)]; when the result is an exception that
    call is not made. *)
Definition setup_platform (devices : list (string * gmap string string))
    (w : World) : result (list BftCover) * World :=
  construct_covers devices [] w.

End Platform.

(** * Vocabulary of the statements *)

(** [status] carries the four telemetry fields with these values (and maybe
    other fields). *)
Record has_sample (status : gmap string jval) (p1 p2 v1 v2 : jval) : Prop := {
  first_pos : status !! "first_engine_pos_int" = Some p1;
  second_pos : status !! "second_engine_pos_int" = Some p2;
  first_vel : status !! "first_engine_vel_int" = Some v1;
  second_vel : status !! "second_engine_vel_int" = Some v2
}.

(** The dict with exactly the four telemetry fields. *)
Definition sample (p1 p2 v1 v2 : jval) : gmap string jval :=
  <["first_engine_pos_int" := p1]>
    (<["second_engine_pos_int" := p2]>
       (<["first_engine_vel_int" := v1]>
          (<["second_engine_vel_int" := v2]> ∅))).

(** The world once the classifier has logged its argument. *)
Definition entered (w : World) : World := record_log DEBUG "Current Status: %s" w.


(** [m] keeps [P] of object and world, whether it returns or raises. *)
Definition maintains {A : Type} (P : BftCover -> World -> Prop) (m : M A) : Prop :=
  forall self w, P self w -> P (object (m self w)) (world (m self w)).

(** The url of [_get_variable] and [_put_command]. *)
Definition execute_url (self : BftCover) (what : string) : string :=
  dispatcher_api_url self ++ "/" ++ py_str (device_id self) ++ "/execute/" ++ what.

(** The world after a failed fetch of the telemetry. *)
Definition polled (srv : Server) (self : BftCover) (w : World) : World :=
  world (_get_variable srv "diagnosis" self w).

(** [status] misses one of the four telemetry fields. *)
Definition lacks_field (status : gmap string jval) : Prop :=
  status !! "first_engine_pos_int" = None
  \/ status !! "second_engine_pos_int" = None
  \/ status !! "first_engine_vel_int" = None
  \/ status !! "second_engine_vel_int" = None.

(** The fetch of the telemetry fails in transport, or its answer misses a
    field. *)
Definition fetch_fails (srv : Server) (self : BftCover) (w : World) : Prop :=
  value (_get_variable srv "diagnosis" self w) = Raise ConnectionError
  \/ exists status,
       value (_get_variable srv "diagnosis" self w) = Ok status
       /\ lacks_field status.

(** [__init__] up to its [try] statement. *)
Definition init_resolved (srv : Server) (args : Args) (w : World) : outcome unit :=
  bind (init_token srv) (fun _ => init_device srv) (fresh args) w.

Inductive call : Type := Update | OpenCover | CloseCover | StopCover.

(** One call of the host on the entity. *)
Definition perform (srv : Server) (c : call) : M unit :=
  match c with
  | Update => update srv
  | OpenCover => bind (open_cover srv) (fun _ => ret tt)
  | CloseCover => bind (close_cover srv) (fun _ => ret tt)
  | StopCover => bind (stop_cover srv) (fun _ => ret tt)
  end.

(** The object and the world after a sequence of calls; an exception of one
    call is the host's to handle and the next call finds the object as the
    failed one left it. *)
Fixpoint after_calls (srv : Server) (cs : list call) (self : BftCover) (w : World)
  : BftCover * World :=
  match cs with
  | [] => (self, w)
  | c :: cs' =>
      after_calls srv cs' (object (perform srv c self w)) (world (perform srv c self w))
  end.

(** [_obtained_token] was never assigned, and the token is there. *)
Definition token_supplied (self : BftCover) (w : World) : Prop :=
  _obtained_token self = Unbound /\ access_token self <> None.

(** A request that carries the timeout of 10. *)
Definition bounded (r : request) : Prop := req_timeout r = Some 10.

(** Every request of the world carries it. *)
Definition all_bounded (self : BftCover) (w : World) : Prop :=
  Forall bounded (requests w).

(** ** Objects, worlds and servers to run the methods on *)

Definition idle_world : World := mkWorld [] 0 [] [].

Definition gate_args : Args :=
  mkArgs (Some "Gate") (Some "front gate") (Some "user") (Some "secret")
    (Some "token").

(** The front gate, its device id resolved. *)
Definition gate : BftCover := with_device_id (Some "a1b2") (fresh gate_args).

(** The gate while a listener is registered. *)
Definition watched_gate : BftCover := with_unsub_listener_cover (Some 0%nat) gate.
Definition watched_world : World := mkWorld [] 1 [] [].

(** The gate once an update has found it closed. *)
Definition closed_gate : BftCover := with_state (Some STATE_CLOSED) gate.

(** Servers to run the methods against.  [refusing] lists the front gate
    and refuses every other connection. *)
Definition refusing : Server :=
  mkServer
    (fun _ _ => inl Refused)
    (fun _ _ => inr (Some (Some [mkAutomation "a1b2" "front gate"])))
    (fun _ _ => inl Refused)
    (fun _ _ => inl Refused).

(** [answering status r] answers the diagnosis with [status] and every
    command with [r]. *)
Definition answering (status r : gmap string jval) : Server :=
  mkServer
    (fun _ _ => inr (Some {["access_token" := "fresh token"]}))
    (fun _ _ => inr (Some (Some [mkAutomation "a1b2" "front gate"])))
    (fun url _ =>
       if String.eqb url
            "https://ucontrol-dispatcher.bft-automation.com/automations/a1b2/execute/diagnosis"
       then inr (Some status)
       else inr (Some r))
    (fun _ _ => inr "ok").

(** ** Further vocabulary *)

(** The exceptions that the [try] statement of [update] handles. *)
Definition handled_by_update (e : exn) : bool :=
  match e with
  | ConnectionError | KeyError _ => true
  | _ => false
  end.

(** The body of the [try] statement of [update] raises [e]: the fetch does,
    or the classifier does on what was fetched. *)
Definition poll_raises (srv : Server) (self : BftCover) (w : World) (e : exn) : Prop :=
  value (_get_variable srv "diagnosis" self w) = Raise e
  \/ exists status,
       value (_get_variable srv "diagnosis" self w) = Ok status
       /\ value (_get_gate_status status self (polled srv self w)) = Raise e.

(** The listeners of the entity are accounted for: no listener was removed
    twice, every removed one had been registered, and the registered ones
    are the removed ones and the one the object holds, if it holds one. *)
Definition listeners_ok (self : BftCover) (w : World) : Prop :=
  List.NoDup (unsubscribed w)
  /\ (forall h, List.In h (unsubscribed w) -> (h < tracked w)%nat)
  /\ match _unsub_listener_cover self with
     | Some h =>
         (h < tracked w)%nat /\ ~ List.In h (unsubscribed w)
         /\ tracked w = S (length (unsubscribed w))
     | None => tracked w = length (unsubscribed w)
     end.

(** The three commands, with the verb each sends, the state at which it
    does nothing, and its method. *)
Inductive command : Type := CmdOpen | CmdClose | CmdStop.

Definition verb (c : command) : string :=
  match c with
  | CmdOpen => "open"
  | CmdClose => "close"
  | CmdStop => "stop"
  end.

Definition idle_state (c : command) : string :=
  match c with
  | CmdOpen => "open"
  | CmdClose => "close"
  | CmdStop => "stopped"
  end.

Definition method (srv : Server) (c : command) : M (option bool) :=
  match c with
  | CmdOpen => open_cover srv
  | CmdClose => close_cover srv
  | CmdStop => stop_cover srv
  end.

(** The url of [get_token]. *)
Definition token_url (self : BftCover) : string := particle_url self ++ "/oauth/token".

(** The url of [get_device_id]. *)
Definition users_url (self : BftCover) : string :=
  particle_url self ++ "/api/v1/users/?access_token=" ++ py_str (access_token self).

(** The automation carries the wanted name. *)
Definition named (wanted : option string) (a : automation) : Prop :=
  wanted = Some (info_name a).

(** The object once [__init__] has stored a token it obtained itself. *)
Definition acquired (token : option string) (self : BftCover) : BftCover :=
  with_obtained_token_ (Bound true) (with_access_token token self).

(** The cover is the entity of this device configuration. *)
Definition configured_by (CONF_NAME CONF_DEVICE : string)
    (device : string * gmap string string) (cover : BftCover) : Prop :=
  name cover = snd device !! CONF_NAME
  /\ device_name cover = snd device !! CONF_DEVICE
  /\ available cover = true.

(** A server that lets every request time out. *)
Definition timing_out : Server :=
  mkServer
    (fun _ _ => inl TimedOut)
    (fun _ _ => inl TimedOut)
    (fun _ _ => inl TimedOut)
    (fun _ _ => inl TimedOut).

(** The vendor API when the token endpoint answers without a token. *)
Definition tokenless : Server :=
  mkServer
    (fun _ _ => inr (Some ∅))
    (fun _ _ => inr (Some (Some [mkAutomation "a1b2" "front gate"])))
    (fun _ _ => inr (Some ∅))
    (fun _ _ => inr "ok").

(** A server that lists three gates, two of them named front gate. *)
Definition two_gates : Server :=
  mkServer
    (fun _ _ => inl Refused)
    (fun _ _ => inr (Some (Some [mkAutomation "c3d4" "back gate";
                                 mkAutomation "a1b2" "front gate";
                                 mkAutomation "e5f6" "front gate"])))
    (fun _ _ => inl Refused)
    (fun _ _ => inl Refused).

(** The front gate configured without a token. *)
Definition tokenless_args : Args :=
  mkArgs (Some "Gate") (Some "front gate") (Some "user") (Some "secret") None.

(** The configuration of a gate the account does not list. *)
Definition side_gate_args : Args :=
  mkArgs (Some "Side") (Some "side gate") (Some "user") (Some "secret") (Some "token").

(** Device configurations: the front gate with its token, and a back gate
    that has none. *)
Definition front_config : gmap string string :=
  <["name" := "Gate"]> (<["device" := "front gate"]> (<["access_token" := "token"]> ∅)).

Definition back_config : gmap string string :=
  <["name" := "Back"]> (<["device" := "back gate"]> ∅).

(** * Properties *)

(** ** The constants *)

Lemma STATES_MAP_open : STATES_MAP !! "open" = Some STATE_OPEN.
Proof. vm_compute. reflexivity. Qed.

Lemma STATES_MAP_stopped : STATES_MAP !! "stopped" = Some STATE_STOPPED.
Proof. vm_compute. reflexivity. Qed.

Lemma STATES_MAP_closed : STATES_MAP !! "closed" = Some STATE_CLOSED.
Proof. vm_compute. reflexivity. Qed.

Lemma STATES_MAP_moving : STATES_MAP !! "moving" = Some STATE_MOVING.
Proof. vm_compute. reflexivity. Qed.

Lemma py_in_singleton x s : py_in x [s] = true <-> x = Some s.
Proof.
  destruct x as [t |]; cbn [py_in existsb].
  - rewrite orb_false_r, String.eqb_eq. split; congruence.
  - split; discriminate.
Qed.

(** ** Running binds and handlers *)

Lemma bind_ok {A B : Type} (m : M A) (k : A -> M B) self w a :
  value (m self w) = Ok a ->
  bind m k self w = k a (object (m self w)) (world (m self w)).
Proof. intros H. unfold bind. cbv zeta. rewrite H. reflexivity. Qed.

Lemma bind_raise {A B : Type} (m : M A) (k : A -> M B) self w e :
  value (m self w) = Raise e ->
  bind m k self w = Out (Raise e) (object (m self w)) (world (m self w)).
Proof. intros H. unfold bind. cbv zeta. rewrite H. reflexivity. Qed.

Lemma bind_assoc {A B C : Type} (m : M A) (k : A -> M B) (k' : B -> M C) self w :
  bind m (fun a => bind (k a) k') self w = bind (bind m k) k' self w.
Proof.
  unfold bind. cbv zeta.
  destruct (value (m self w)); cbn [value object world]; reflexivity.
Qed.

Lemma try_except_ok {A : Type} (body : M A) handlers self w a :
  value (body self w) = Ok a ->
  try_except body handlers self w = body self w.
Proof. intros H. unfold try_except. cbv zeta. rewrite H. reflexivity. Qed.

Lemma try_except_caught {A : Type} (body : M A) handlers self w e h :
  value (body self w) = Raise e ->
  handlers e = Some h ->
  try_except body handlers self w = h (object (body self w)) (world (body self w)).
Proof. intros H Hh. unfold try_except. cbv zeta. rewrite H, Hh. reflexivity. Qed.

Lemma try_except_uncaught {A : Type} (body : M A) handlers self w e :
  value (body self w) = Raise e ->
  handlers e = None ->
  try_except body handlers self w = body self w.
Proof. intros H Hh. unfold try_except. cbv zeta. rewrite H, Hh. reflexivity. Qed.

(** ** Invariants of method bodies *)

Section Invariant.

Variable P : BftCover -> World -> Prop.

Lemma maintains_ret {A : Type} (a : A) : maintains P (ret a).
Proof. intros self w H. exact H. Qed.

Lemma maintains_raise {A : Type} (e : exn) : maintains P (@raise A e).
Proof. intros self w H. exact H. Qed.

Lemma maintains_lift {A : Type} (r : result A) : maintains P (lift r).
Proof. intros self w H. exact H. Qed.

Lemma maintains_get_self : maintains P get_self.
Proof. intros self w H. exact H. Qed.

Lemma maintains_bind {A B : Type} (m : M A) (k : A -> M B) :
  maintains P m -> (forall a, maintains P (k a)) -> maintains P (bind m k).
Proof.
  intros Hm Hk self w H. unfold bind. cbv zeta.
  specialize (Hm self w H).
  destruct (value (m self w)) as [a | e]; cbn [object world].
  - apply Hk. exact Hm.
  - exact Hm.
Qed.

Lemma maintains_try_except {A : Type} (body : M A) (handlers : exn -> option (M A)) :
  maintains P body ->
  (forall e h, handlers e = Some h -> maintains P h) ->
  maintains P (try_except body handlers).
Proof.
  intros Hb Hh self w H. unfold try_except. cbv zeta.
  specialize (Hb self w H).
  destruct (value (body self w)) as [a | e]; [exact Hb |].
  destruct (handlers e) as [h |] eqn:Hhe; [| exact Hb].
  apply (Hh e h Hhe). exact Hb.
Qed.

Lemma maintains_json {B : Type} (body : option B) : maintains P (json body).
Proof. destruct body; intros self w H; exact H. Qed.

Lemma maintains_getitem {V : Type} (d : gmap string V) (key : string) :
  maintains P (getitem d key).
Proof. unfold getitem. destruct (d !! key); intros self w H; exact H. Qed.

Lemma maintains_set_self (f : BftCover -> BftCover) :
  (forall s w, P s w -> P (f s) w) -> maintains P (set_self f).
Proof. intros Hf self w H. apply Hf. exact H. Qed.

(** Invariants that no log record breaks. *)
Hypothesis P_log : forall s w l msg, P s w -> P s (record_log l msg w).

Lemma maintains_log l msg : maintains P (log l msg).
Proof. intros self w H. apply P_log. exact H. Qed.

(** Invariants that no request with a timeout of 10 breaks. *)
Hypothesis P_request :
  forall s w meth url, P s w -> P s (record_request (mkRequest meth url (Some 10)) w).

Lemma maintains_http {B : Type} meth url (answer : nat -> conn_failure + B) :
  maintains P (http meth url (Some 10) answer).
Proof.
  intros self w H. unfold http. cbv zeta.
  destruct (answer (length (requests w))); cbn [object world];
    apply P_request; exact H.
Qed.

(** Steps through a method body, one statement at a time. *)
Ltac step :=
  first
    [ apply maintains_ret | apply maintains_raise | apply maintains_lift
    | apply maintains_get_self | apply maintains_log | apply maintains_http
    | apply maintains_json | apply maintains_getitem
    | apply maintains_bind; [| intros ?]
    | match goal with
      | |- maintains _ (if ?b then _ else _) => destruct b
      | |- maintains _ (match ?x with _ => _ end) => destruct x
      end ].

Lemma maintains__get_gate_status status : maintains P (_get_gate_status status).
Proof. unfold _get_gate_status. repeat step. Qed.

Lemma maintains_find_automation wanted l : maintains P (find_automation wanted l).
Proof.
  induction l as [| a l IH]; cbn [find_automation]; [apply maintains_ret |].
  destruct wanted as [n |]; [destruct (String.eqb (info_name a) n) |];
    try exact IH.
  repeat step.
Qed.

Variable srv : Server.

Lemma maintains_get_token : maintains P (get_token srv).
Proof.
  unfold get_token. repeat step.
  apply maintains_try_except; [repeat step |].
  intros e h He. destruct e; try discriminate He.
  injection He as <-. repeat step.
Qed.

Lemma maintains_get_device_id : maintains P (get_device_id srv).
Proof.
  unfold get_device_id. step; [step | ]. step; [step |]. step; [step |].
  destruct a1; [apply maintains_find_automation | apply maintains_raise].
Qed.

Lemma maintains_remove_token : maintains P (remove_token srv).
Proof. unfold remove_token. repeat step. Qed.

Lemma maintains__get_variable var : maintains P (_get_variable srv var).
Proof. unfold _get_variable. repeat step. Qed.

Lemma maintains__put_command func : maintains P (_put_command srv func).
Proof. unfold _put_command. repeat step. Qed.

(** Invariants that [update] keeps: those indifferent to the state and to
    availability turning true, and to the removal of the listener. *)
Hypothesis P_state : forall s w v, P s w -> P (with_state v s) w.
Hypothesis P_available : forall s w, P s w -> P (with_available true s) w.

Lemma maintains_update_try : maintains P (update_try srv).
Proof.
  unfold update_try. apply maintains_try_except.
  - apply maintains_bind; [apply maintains__get_variable | intros status].
    apply maintains_bind; [apply maintains__get_gate_status | intros state].
    apply maintains_bind; [apply maintains_set_self; auto | intros _].
    repeat step. apply maintains_set_self; auto.
  - intros e h He. destruct e; try discriminate He; injection He as <-;
      (apply maintains_bind; [apply maintains_log | intros _]);
      apply maintains_set_self; auto.
Qed.

Hypothesis P_unsubscribed : forall s w h, P s w -> P s (record_unsubscribed h w).
Hypothesis P_unsub_listener_cover :
  forall s w v, P s w -> P (with_unsub_listener_cover v s) w.

Lemma maintains_update : maintains P (update srv).
Proof.
  unfold update.
  apply maintains_bind; [apply maintains_update_try | intros _].
  apply maintains_bind; [apply maintains_get_self | intros self].
  destruct (negb (py_in (_state self) [STATE_MOVING])); [| apply maintains_ret].
  destruct (_unsub_listener_cover self) as [unsub |]; [| apply maintains_ret].
  apply maintains_bind; [| intros _; apply maintains_set_self; auto].
  intros s w H. apply P_unsubscribed. exact H.
Qed.

Hypothesis P_tracked : forall s w, P s w -> P s (record_tracked w).

Lemma maintains__start_watcher command : maintains P (_start_watcher command).
Proof.
  unfold _start_watcher.
  apply maintains_bind; [apply maintains_log | intros _].
  apply maintains_bind; [apply maintains_get_self | intros self].
  destruct (_unsub_listener_cover self); [apply maintains_ret |].
  apply maintains_bind; [| intros h; apply maintains_set_self; auto].
  intros s w H. apply P_tracked. exact H.
Qed.

Lemma maintains_close_cover : maintains P (close_cover srv).
Proof.
  unfold close_cover.
  apply maintains_bind; [apply maintains_get_self | intros self].
  destruct (negb (py_in (_state self) ["close"])); [| apply maintains_ret].
  apply maintains_bind; [apply maintains__put_command | intros r].
  apply maintains_bind; [apply maintains__start_watcher | intros _].
  apply maintains_ret.
Qed.

Lemma maintains_open_cover : maintains P (open_cover srv).
Proof.
  unfold open_cover.
  apply maintains_bind; [apply maintains_get_self | intros self].
  destruct (negb (py_in (_state self) ["open"])); [| apply maintains_ret].
  apply maintains_bind; [apply maintains__put_command | intros r].
  apply maintains_bind; [apply maintains__start_watcher | intros _].
  apply maintains_ret.
Qed.

Lemma maintains_stop_cover : maintains P (stop_cover srv).
Proof.
  unfold stop_cover.
  apply maintains_bind; [apply maintains_get_self | intros self].
  destruct (negb (py_in (_state self) ["stopped"])); [| apply maintains_ret].
  apply maintains_bind; [apply maintains__put_command | intros r].
  apply maintains_bind; [apply maintains__start_watcher | intros _].
  apply maintains_bind; [apply maintains_getitem | intros status].
  apply maintains_ret.
Qed.

(** Invariants that [__init__] keeps. *)
Hypothesis P_device_id : forall s w v, P s w -> P (with_device_id v s) w.

Lemma maintains_init_device : maintains P (init_device srv).
Proof.
  unfold init_device.
  apply maintains_bind; [apply maintains_get_self | intros self].
  destruct (device_id self); [apply maintains_ret |].
  apply maintains_bind; [apply maintains_get_device_id | intros id].
  apply maintains_set_self; auto.
Qed.

Hypothesis P_access_token : forall s w v, P s w -> P (with_access_token v s) w.
Hypothesis P_obtained_token_ : forall s w v, P s w -> P (with_obtained_token_ v s) w.

Lemma maintains_init_token : maintains P (init_token srv).
Proof.
  unfold init_token.
  apply maintains_bind; [apply maintains_get_self | intros self].
  destruct (access_token self); [apply maintains_ret |].
  apply maintains_bind; [apply maintains_get_token | intros token].
  apply maintains_bind; [| intros _]; apply maintains_set_self; auto.
Qed.

Hypothesis P_unavailable : forall s w, P s w -> P (with_available false s) w.
Hypothesis P_name : forall s w v, P s w -> P (with_name v s) w.

Lemma maintains_init_try : maintains P (init_try srv).
Proof.
  unfold init_try. apply maintains_try_except; [apply maintains_update |].
  intros e h He. destruct e; try discriminate He; injection He as <-;
    (apply maintains_bind; [apply maintains_log | intros _]);
    (apply maintains_bind; [| intros _]);
    try (apply maintains_bind; [| intros _]);
    apply maintains_set_self; auto.
Qed.

End Invariant.

(** ** The classifier on integer telemetry *)

Lemma sample_has_sample p1 p2 v1 v2 : has_sample (sample p1 p2 v1 v2) p1 p2 v1 v2.
Proof. split; unfold sample; by simplify_map_eq. Qed.

(** On integers the classifier is its cascade of four guards, each returning
    after one warning, and a fall through that returns [None]. *)
Lemma _get_gate_status_ints status p1 p2 v1 v2 self w :
  has_sample status (JInt p1) (JInt p2) (JInt v1) (JInt v2) ->
  _get_gate_status status self w =
  if (p1 =? 100) && (p2 =? 100) && ((v1 =? 0) && (v2 =? 0))
  then Out (Ok (Some STATE_OPEN)) self (record_log WARNING "open" (entered w))
  else if (v1 =? 0) && (v2 =? 0) && ((p1 >? 0) || (p2 >? 0))
  then Out (Ok (Some STATE_STOPPED)) self (record_log WARNING "stopped" (entered w))
  else if (p1 =? 0) && (p2 =? 0) && ((v1 =? 0) && (v2 =? 0))
  then Out (Ok (Some STATE_CLOSED)) self (record_log WARNING "closed" (entered w))
  else if (v1 >? 0) || (v2 >? 0)
  then Out (Ok (Some STATE_MOVING)) self (record_log WARNING "moving" (entered w))
  else Out (Ok None) self (entered w).
Proof.
  intros [H1 H2 H3 H4].
  unfold _get_gate_status, bind, getitem, log, ret, lift, entered.
  cbn [value object world]. rewrite H1. cbn [value object world].
  rewrite H2. cbn [value object world]. rewrite H3. cbn [value object world].
  rewrite H4. cbn [value object world py_eq_int py_gt_int and_then or_else].
  rewrite STATES_MAP_open, STATES_MAP_stopped, STATES_MAP_closed, STATES_MAP_moving.
  destruct (p1 =? 100), (p2 =? 100), (v1 =? 0), (v2 =? 0);
    cbn [andb orb value object world]; try reflexivity;
    destruct (p1 >? 0), (p2 >? 0);
    cbn [andb orb value object world]; try reflexivity;
    destruct (p1 =? 0), (p2 =? 0);
    cbn [andb orb value object world]; try reflexivity;
    destruct (v1 >? 0), (v2 >? 0);
    cbn [andb orb value object world]; reflexivity.
Qed.

(** Case analysis on the integer tests of the guards. *)
Ltac guards :=
  repeat match goal with
    | |- context [(?a >? ?b)%Z] => rewrite (Z.gtb_ltb a b)
    | |- context [(?a =? ?b)%Z] => destruct (Z.eqb_spec a b)
    | |- context [(?a <? ?b)%Z] => destruct (Z.ltb_spec a b)
    end;
  cbn [andb orb value object world];
  try lia.

(** C4: with both velocities 0 and at least one position above 0 the
    classifier returns Stopped through guard 2, whatever the other position
    is, except at positions 100 and 100, where guard 1 comes first and it
    returns Open. *)
Theorem stationary_off_zero_is_stopped status p1 p2 self w :
  has_sample status (JInt p1) (JInt p2) (JInt 0) (JInt 0) ->
  0 < p1 \/ 0 < p2 ->
  (p1 = 100 /\ p2 = 100 ->
   _get_gate_status status self w =
   Out (Ok (Some STATE_OPEN)) self (record_log WARNING "open" (entered w)))
  /\
  (~ (p1 = 100 /\ p2 = 100) ->
   _get_gate_status status self w =
   Out (Ok (Some STATE_STOPPED)) self (record_log WARNING "stopped" (entered w))).
Proof.
  intros Hs Hp.
  rewrite (_get_gate_status_ints _ _ _ _ _ self w Hs).
  split; intros Hc; guards; reflexivity.
Qed.

Lemma stationary_off_zero_is_stopped_witness :
  value (_get_gate_status (sample (JInt 0) (JInt 5) (JInt 0) (JInt 0)) gate idle_world)
  = Ok (Some STATE_STOPPED)
  /\
  value (_get_gate_status (sample (JInt 100) (JInt 100) (JInt 0) (JInt 0)) gate idle_world)
  = Ok (Some STATE_OPEN).
Proof.
  split.
  - destruct (stationary_off_zero_is_stopped
                (sample (JInt 0) (JInt 5) (JInt 0) (JInt 0)) 0 5 gate idle_world)
      as [_ Hstopped].
    + apply sample_has_sample.
    + right. lia.
    + rewrite Hstopped; [reflexivity | lia].
  - destruct (stationary_off_zero_is_stopped
                (sample (JInt 100) (JInt 100) (JInt 0) (JInt 0)) 100 100 gate idle_world)
      as [Hopen _].
    + apply sample_has_sample.
    + left. lia.
    + rewrite Hopen; [reflexivity | lia].
Defined.

(** C5: with both positions 0 and both velocities 0 the classifier returns
    Closed, through guard 3 (its warning is the one logged); and on integer
    telemetry Closed is returned at no other sample. *)
Theorem all_zero_is_closed status p1 p2 v1 v2 self w :
  has_sample status (JInt p1) (JInt p2) (JInt v1) (JInt v2) ->
  (p1 = 0 /\ p2 = 0 /\ v1 = 0 /\ v2 = 0 ->
   _get_gate_status status self w =
   Out (Ok (Some STATE_CLOSED)) self (record_log WARNING "closed" (entered w)))
  /\
  (value (_get_gate_status status self w) = Ok (Some STATE_CLOSED) ->
   p1 = 0 /\ p2 = 0 /\ v1 = 0 /\ v2 = 0).
Proof.
  intros Hs.
  rewrite (_get_gate_status_ints _ _ _ _ _ self w Hs).
  split.
  - intros (-> & -> & -> & ->). reflexivity.
  - guards; intros Hv; try discriminate Hv; lia.
Qed.

Lemma all_zero_is_closed_witness :
  _get_gate_status (sample (JInt 0) (JInt 0) (JInt 0) (JInt 0)) gate idle_world
  = Out (Ok (Some STATE_CLOSED)) gate
      (record_log WARNING "closed" (entered idle_world)).
Proof.
  apply (all_zero_is_closed (sample (JInt 0) (JInt 0) (JInt 0) (JInt 0)) 0 0 0 0).
  - apply sample_has_sample.
  - repeat split; reflexivity.
Defined.




(** ** Updates *)

Lemma _get_variable_object srv var self w :
  object (_get_variable srv var self w) = self.
Proof.
  apply (maintains__get_variable (fun s _ => s = self)); auto.
Qed.

Lemma _get_gate_status_object status self w :
  object (_get_gate_status status self w) = self.
Proof.
  apply (maintains__get_gate_status (fun s _ => s = self)); auto.
Qed.

Lemma update_try_connection_error srv self w :
  value (_get_variable srv "diagnosis" self w) = Raise ConnectionError ->
  update_try srv self w =
  Out (Ok tt) (with_state (Some STATE_OFFLINE) self)
    (record_log ERROR "Unable to connect to server: %(reason)s" (polled srv self w)).
Proof.
  intros H. unfold update_try.
  erewrite try_except_caught.
  2: { rewrite (bind_raise _ _ _ _ _ H). reflexivity. }
  2: reflexivity.
  rewrite (bind_raise _ _ _ _ _ H). cbn [object world].
  rewrite _get_variable_object. reflexivity.
Qed.

Lemma _get_gate_status_lacks_field status self w :
  lacks_field status ->
  exists key, value (_get_gate_status status self w) = Raise (KeyError key).
Proof.
  intros H. unfold _get_gate_status, bind, getitem, log, ret, raise.
  cbn [value object world].
  destruct (status !! "first_engine_pos_int") eqn:H1; cbn [value object world];
    [| eexists; reflexivity].
  destruct (status !! "second_engine_pos_int") eqn:H2; cbn [value object world];
    [| eexists; reflexivity].
  destruct (status !! "first_engine_vel_int") eqn:H3; cbn [value object world];
    [| eexists; reflexivity].
  destruct (status !! "second_engine_vel_int") eqn:H4; cbn [value object world];
    [| eexists; reflexivity].
  destruct H as [H | [H | [H | H]]]; congruence.
Qed.

Lemma update_try_key_error srv self w status :
  value (_get_variable srv "diagnosis" self w) = Ok status ->
  lacks_field status ->
  exists w', update_try srv self w
             = Out (Ok tt) (with_state (Some STATE_OFFLINE) self) w'.
Proof.
  intros Hfetch Hlacks. unfold update_try.
  destruct (_get_gate_status_lacks_field status
              (object (_get_variable srv "diagnosis" self w))
              (world (_get_variable srv "diagnosis" self w)) Hlacks) as [key Hkey].
  erewrite try_except_caught.
  2: { rewrite (bind_ok _ _ _ _ _ Hfetch).
       rewrite (bind_raise _ _ _ _ _ Hkey). reflexivity. }
  2: reflexivity.
  rewrite (bind_ok _ _ _ _ _ Hfetch), (bind_raise _ _ _ _ _ Hkey).
  cbn [object world].
  rewrite _get_gate_status_object, _get_variable_object.
  eexists. reflexivity.
Qed.

(** The second statement of [update], after its [try] statement returned. *)
Lemma update_after_try srv self w :
  value (update_try srv self w) = Ok tt ->
  update srv self w =
  let s := object (update_try srv self w) in
  let w' := world (update_try srv self w) in
  if negb (py_in (_state s) [STATE_MOVING])
  then
    match _unsub_listener_cover s with
    | Some unsub =>
        Out (Ok tt) (with_unsub_listener_cover None s) (record_unsubscribed unsub w')
    | None => Out (Ok tt) s w'
    end
  else Out (Ok tt) s w'.
Proof.
  intros H. unfold update. rewrite (bind_ok _ _ _ _ _ H). cbv zeta.
  unfold bind, get_self. cbn [value object world].
  destruct (negb _); [| reflexivity].
  destruct (_unsub_listener_cover _); reflexivity.
Qed.

Lemma update_completes srv self w :
  value (update srv self w) = Ok tt -> value (update_try srv self w) = Ok tt.
Proof.
  destruct (value (update_try srv self w)) as [[] | e] eqn:H; [reflexivity |].
  unfold update. rewrite (bind_raise _ _ _ _ _ H). discriminate.
Qed.

(** A failed fetch degrades the state, and nothing more: [update] returns,
    the state is offline, availability is what it was. *)
Lemma update_degrades srv self w :
  fetch_fails srv self w ->
  value (update srv self w) = Ok tt
  /\ _state (object (update srv self w)) = Some STATE_OFFLINE
  /\ _available (object (update srv self w)) = _available self.
Proof.
  intros H.
  assert (Htry : exists w', update_try srv self w
                   = Out (Ok tt) (with_state (Some STATE_OFFLINE) self) w').
  { destruct H as [H | (status & Hfetch & Hlacks)].
    - eexists. apply update_try_connection_error. exact H.
    - apply (update_try_key_error _ _ _ _ Hfetch Hlacks). }
  destruct Htry as [w' Htry].
  rewrite update_after_try by (rewrite Htry; reflexivity).
  rewrite Htry. cbn [object world value _unsub_listener_cover with_state]. cbv zeta.
  destruct (_unsub_listener_cover self); cbn; auto.
Qed.

(** C1: when the fetch of the telemetry raises [ConnectionError], [update]
    returns without raising and the state is offline; but availability is
    left as it was, so an available entity stays available. *)
Theorem update_connection_error_stays_available srv self w :
  value (_get_variable srv "diagnosis" self w) = Raise ConnectionError ->
  value (update srv self w) = Ok tt
  /\ _state (object (update srv self w)) = Some STATE_OFFLINE
  /\ available (object (update srv self w)) = available self.
Proof. intros H. apply update_degrades. left. exact H. Qed.

Lemma update_connection_error_stays_available_witness :
  value (update refusing gate idle_world) = Ok tt
  /\ _state (object (update refusing gate idle_world)) = Some STATE_OFFLINE
  /\ available (object (update refusing gate idle_world)) = true.
Proof.
  apply (update_connection_error_stays_available refusing gate idle_world).
  vm_compute. reflexivity.
Defined.

(** The [try] statement of [update] leaves the listener and the host's time
    service alone. *)
Lemma update_try_watcher srv self w :
  _unsub_listener_cover (object (update_try srv self w)) = _unsub_listener_cover self
  /\ unsubscribed (world (update_try srv self w)) = unsubscribed w.
Proof.
  apply (maintains_update_try
           (fun s w' => _unsub_listener_cover s = _unsub_listener_cover self
                        /\ unsubscribed w' = unsubscribed w));
    auto.
Qed.

(** C6: after an [update] that returns, a listener is registered only if the
    new state is Moving.  An update that yields Moving leaves the listener
    and the host's time service as they were; an update that yields another
    state leaves no listener and has removed the one there was, once; and a
    next such update removes nothing more. *)
Theorem settled_update_removes_listener_once srv self w :
  value (update srv self w) = Ok tt ->
  (_state (object (update srv self w)) = Some STATE_MOVING ->
   _unsub_listener_cover (object (update srv self w)) = _unsub_listener_cover self
   /\ unsubscribed (world (update srv self w)) = unsubscribed w)
  /\
  (_state (object (update srv self w)) <> Some STATE_MOVING ->
   _unsub_listener_cover (object (update srv self w)) = None
   /\ unsubscribed (world (update srv self w))
      = match _unsub_listener_cover self with
        | Some unsub => unsub :: unsubscribed w
        | None => unsubscribed w
        end)
  /\
  (_state (object (update srv self w)) <> Some STATE_MOVING ->
   value (update srv (object (update srv self w)) (world (update srv self w))) = Ok tt ->
   _state (object (update srv (object (update srv self w)) (world (update srv self w))))
     <> Some STATE_MOVING ->
   unsubscribed (world (update srv (object (update srv self w)) (world (update srv self w))))
   = unsubscribed (world (update srv self w))).
Proof.
  assert (Hone : forall self w,
    value (update srv self w) = Ok tt ->
    (_state (object (update srv self w)) = Some STATE_MOVING ->
     _unsub_listener_cover (object (update srv self w)) = _unsub_listener_cover self
     /\ unsubscribed (world (update srv self w)) = unsubscribed w)
    /\
    (_state (object (update srv self w)) <> Some STATE_MOVING ->
     _unsub_listener_cover (object (update srv self w)) = None
     /\ unsubscribed (world (update srv self w))
        = match _unsub_listener_cover self with
          | Some unsub => unsub :: unsubscribed w
          | None => unsubscribed w
          end)).
  { clear self w. intros self w Hok.
    apply update_completes in Hok.
    rewrite (update_after_try _ _ _ Hok). cbv zeta.
    destruct (update_try_watcher srv self w) as [Hu Hw].
    destruct (py_in (_state (object (update_try srv self w))) [STATE_MOVING]) eqn:Hin;
      cbn [negb].
    - apply py_in_singleton in Hin. cbn [object world].
      split; [auto | intros Hne; contradiction].
    - assert (Hne : _state (object (update_try srv self w)) <> Some STATE_MOVING).
      { intros Heq. apply py_in_singleton in Heq. congruence. }
      rewrite <- Hu.
      destruct (_unsub_listener_cover (object (update_try srv self w))) eqn:Hcur;
        cbn [object world]; (split; [intros Heq; contradiction | intros _]);
        rewrite <- Hw; auto. }
  intros Hok. destruct (Hone self w Hok) as [Hmoving Hsettled].
  split; [exact Hmoving |]. split; [exact Hsettled |].
  intros Hne Hok' Hne'.
  destruct (Hone _ _ Hok') as [_ Hsettled'].
  destruct (Hsettled' Hne') as [_ ->].
  destruct (Hsettled Hne) as [-> _]. reflexivity.
Qed.

Lemma settled_update_removes_listener_once_witness :
  _unsub_listener_cover
    (object (update (answering (sample (JInt 100) (JInt 100) (JInt 0) (JInt 0)) ∅)
               watched_gate watched_world)) = None
  /\ unsubscribed
       (world (update (answering (sample (JInt 100) (JInt 100) (JInt 0) (JInt 0)) ∅)
                 watched_gate watched_world)) = [0%nat].
Proof.
  destruct (settled_update_removes_listener_once
              (answering (sample (JInt 100) (JInt 100) (JInt 0) (JInt 0)) ∅)
              watched_gate watched_world) as (_ & Hsettled & _).
  - vm_compute. reflexivity.
  - apply Hsettled. vm_compute. discriminate.
Defined.

(** ** Construction *)

Lemma init_resolved_available srv args w :
  _available (object (init_resolved srv args w)) = true.
Proof.
  unfold init_resolved.
  apply (maintains_bind (fun s _ => _available s = true)).
  - apply maintains_init_token; auto.
  - intros _. apply maintains_init_device; auto.
  - reflexivity.
Qed.

(** C7: when the token and the device id are resolved and the fetch of the
    first [update] fails in transport or its answer misses a field, the
    constructor returns an object whose state is offline; but the object is
    available, since [update] handles the exception itself and the handlers
    of [__init__] never run. *)
Theorem init_failed_update_stays_available srv args w :
  value (init_resolved srv args w) = Ok tt ->
  fetch_fails srv (object (init_resolved srv args w)) (world (init_resolved srv args w)) ->
  exists obj w',
    __init__ srv args w = (Ok obj, w')
    /\ _state obj = Some STATE_OFFLINE
    /\ available obj = true.
Proof.
  intros Hpre Hfails.
  destruct (update_degrades _ _ _ Hfails) as (Hok & Hstate & Havail).
  rewrite init_resolved_available in Havail.
  unfold __init__, init_body. cbv zeta.
  rewrite bind_assoc. fold (init_resolved srv args w).
  rewrite (bind_ok _ _ _ _ _ Hpre).
  unfold init_try. rewrite (try_except_ok _ _ _ _ _ Hok). rewrite Hok.
  eexists. eexists. split; [reflexivity |]. split; assumption.
Qed.

Lemma init_failed_update_stays_available_witness :
  exists obj w',
    __init__ refusing gate_args idle_world = (Ok obj, w')
    /\ _state obj = Some STATE_OFFLINE
    /\ available obj = true.
Proof.
  apply (init_failed_update_stays_available refusing gate_args idle_world).
  - vm_compute. reflexivity.
  - left. vm_compute. reflexivity.
Defined.

(** [update] handles [ConnectionError] and [KeyError] itself, so the handlers
    of [__init__], the only place that clears availability, never run. *)
Lemma update_raises_uncaught srv self w e :
  value (update srv self w) = Raise e ->
  e <> ConnectionError /\ forall key, e <> KeyError key.
Proof.
  intros H.
  destruct (value (update_try srv self w)) as [[] | e'] eqn:Htry.
  - rewrite (update_after_try _ _ _ Htry) in H. cbv zeta in H.
    destruct (negb _); [| discriminate H].
    destruct (_unsub_listener_cover _); discriminate H.
  - unfold update in H. rewrite (bind_raise _ _ _ _ _ Htry) in H.
    injection H as <-.
    unfold update_try, try_except in Htry. cbv zeta in Htry.
    destruct (value (bind (_get_variable srv "diagnosis") _ self w)) as [u | e0] eqn:Hbody;
      [congruence |].
    destruct e0; cbv beta iota in Htry;
      try (unfold bind, log, set_self in Htry;
           cbn [value object world] in Htry; discriminate Htry);
      rewrite Hbody in Htry; injection Htry as <-;
      split; try intros key'; discriminate.
Qed.

Lemma init_try_is_update srv self w : init_try srv self w = update srv self w.
Proof.
  destruct (value (update srv self w)) as [u | e] eqn:H.
  - apply (try_except_ok _ _ _ _ _ H).
  - destruct (update_raises_uncaught _ _ _ _ H) as [Hconn Hkey].
    apply (try_except_uncaught _ _ _ _ _ H).
    destruct e; try reflexivity; [contradiction | destruct (Hkey key); reflexivity].
Qed.

Lemma init_always_available srv args w obj w' :
  __init__ srv args w = (Ok obj, w') -> available obj = true.
Proof.
  intros H. unfold __init__ in H. cbv zeta in H.
  assert (Hbody : available (object (init_body srv (fresh args) w)) = true).
  { unfold init_body.
    apply (maintains_bind (fun s _ => available s = true)).
    - apply maintains_init_token; auto.
    - intros _. apply maintains_bind.
      + apply maintains_init_device; auto.
      + intros _ s w0 Hs. rewrite init_try_is_update.
        assert (Hu : maintains (fun s _ => available s = true) (update srv))
          by (apply maintains_update; auto).
        exact (Hu s w0 Hs).
    - reflexivity. }
  destruct (value (init_body srv (fresh args) w)); [| discriminate H].
  injection H as <- _. exact Hbody.
Qed.

(** ** Commands *)

Lemma _put_command_requests srv func self w t :
  access_token self = Some t ->
  requests (world (_put_command srv func self w))
  = mkRequest GET (execute_url self func) (Some 10) :: requests w.
Proof.
  intros Ht.
  unfold _put_command, bind, get_self, lift, bearer, log, http, json, ret, raise.
  cbn [value object world]. rewrite Ht. cbn [value object world].
  unfold execute_url.
  destruct (get_execute srv _ _) as [f | [body |]]; reflexivity.
Qed.

Lemma _put_command_object srv func self w :
  object (_put_command srv func self w) = self.
Proof.
  apply (maintains__put_command (fun s _ => s = self)); auto.
Qed.

Lemma _put_command_watcher srv func self w :
  tracked (world (_put_command srv func self w)) = tracked w.
Proof.
  apply (maintains__put_command (fun _ w' => tracked w' = tracked w)); auto.
Qed.

Lemma _start_watcher_requests command self w :
  requests (world (_start_watcher command self w)) = requests w.
Proof.
  apply (maintains__start_watcher (fun _ w' => requests w' = requests w)); auto.
Qed.

Lemma _start_watcher_value command self w :
  value (_start_watcher command self w) = Ok tt.
Proof.
  unfold _start_watcher, bind, log, get_self, track_utc_time_change, set_self, ret.
  cbn [value object world].
  destruct (_unsub_listener_cover self); reflexivity.
Qed.

Lemma _start_watcher_idle command self w :
  _unsub_listener_cover self = None ->
  _unsub_listener_cover (object (_start_watcher command self w)) = Some (tracked w)
  /\ tracked (world (_start_watcher command self w)) = S (tracked w).
Proof.
  intros H.
  unfold _start_watcher, bind, log, get_self, track_utc_time_change, set_self, ret.
  cbn [value object world]. rewrite H. cbn. auto.
Qed.

(** The closed gate is the gate as [update] leaves it at the all-zero
    telemetry. *)
Lemma update_finds_gate_closed :
  object (update (answering (sample (JInt 0) (JInt 0) (JInt 0) (JInt 0)) ∅)
            gate idle_world)
  = closed_gate.
Proof. vm_compute. reflexivity. Qed.

(** C2: in the state Closed, [close_cover] compares the state with "close",
    so it does send the command, with one request, and once the command is
    answered it registers a listener if there was none. *)
Theorem close_cover_when_closed_sends srv self w t :
  _state self = Some STATE_CLOSED ->
  access_token self = Some t ->
  requests (world (close_cover srv self w))
  = mkRequest GET (execute_url self "close") (Some 10) :: requests w
  /\
  (forall r,
     value (_put_command srv "close" self w) = Ok r ->
     _unsub_listener_cover self = None ->
     _unsub_listener_cover (object (close_cover srv self w)) = Some (tracked w)
     /\ tracked (world (close_cover srv self w)) = S (tracked w)).
Proof.
  intros Hstate Ht.
  assert (Hrun : close_cover srv self w
                 = bind (_put_command srv "close")
                     (fun r => bind (_start_watcher "close")
                                 (fun _ => ret (Some (status_get_is_done r))))
                     self w).
  { unfold close_cover. unfold bind at 1. unfold get_self.
    cbn [value object world]. rewrite Hstate. reflexivity. }
  rewrite Hrun. clear Hrun. split.
  - destruct (value (_put_command srv "close" self w)) as [r | e] eqn:Hput.
    + rewrite (bind_ok _ _ _ _ _ Hput).
      rewrite (bind_ok _ _ _ _ tt (_start_watcher_value _ _ _)).
      cbn [ret world]. rewrite _start_watcher_requests.
      apply (_put_command_requests _ _ _ _ _ Ht).
    + rewrite (bind_raise _ _ _ _ _ Hput). cbn [world].
      apply (_put_command_requests _ _ _ _ _ Ht).
  - intros r Hput Hidle.
    rewrite (bind_ok _ _ _ _ _ Hput).
    rewrite (bind_ok _ _ _ _ tt (_start_watcher_value _ _ _)).
    cbn [ret world object].
    rewrite <- (_put_command_watcher srv "close" self w).
    apply _start_watcher_idle. rewrite _put_command_object. exact Hidle.
Qed.

Lemma close_cover_when_closed_sends_witness :
  requests (world (close_cover (answering ∅ {["status" := JStr "done"]}) closed_gate idle_world))
  = [mkRequest GET
       "https://ucontrol-dispatcher.bft-automation.com/automations/a1b2/execute/close"
       (Some 10)]
  /\ _unsub_listener_cover
       (object (close_cover (answering ∅ {["status" := JStr "done"]}) closed_gate idle_world))
     = Some 0%nat.
Proof.
  destruct (close_cover_when_closed_sends
              (answering ∅ {["status" := JStr "done"]}) closed_gate idle_world "token")
    as [Hsent Hwatch].
  - reflexivity.
  - reflexivity.
  - split.
    + rewrite Hsent. reflexivity.
    + apply (Hwatch {["status" := JStr "done"]}).
      * vm_compute. reflexivity.
      * reflexivity.
Defined.

(** [open_cover] and [stop_cover] do nothing at their own settled state;
    [close_cover] does nothing at the state "close", which no update sets. *)
Lemma open_cover_when_open srv self w :
  _state self = Some STATE_OPEN -> open_cover srv self w = Out (Ok None) self w.
Proof.
  intros H. unfold open_cover, bind, get_self. cbn [value object world].
  rewrite H. reflexivity.
Qed.

Lemma stop_cover_when_stopped srv self w :
  _state self = Some STATE_STOPPED -> stop_cover srv self w = Out (Ok None) self w.
Proof.
  intros H. unfold stop_cover, bind, get_self. cbn [value object world].
  rewrite H. reflexivity.
Qed.

Lemma close_cover_when_close srv self w :
  _state self = Some "close" -> close_cover srv self w = Out (Ok None) self w.
Proof.
  intros H. unfold close_cover, bind, get_self. cbn [value object world].
  rewrite H. reflexivity.
Qed.

(** C9: when the answer to the command has no "status", [open_cover] and
    [close_cover] return [False] and [stop_cover] raises [KeyError]. *)
Theorem missing_status_false_or_key_error srv self w :
  (forall r,
     py_in (_state self) ["open"] = false ->
     value (_put_command srv "open" self w) = Ok r ->
     r !! "status" = None ->
     value (open_cover srv self w) = Ok (Some false))
  /\
  (forall r,
     py_in (_state self) ["close"] = false ->
     value (_put_command srv "close" self w) = Ok r ->
     r !! "status" = None ->
     value (close_cover srv self w) = Ok (Some false))
  /\
  (forall r,
     py_in (_state self) ["stopped"] = false ->
     value (_put_command srv "stop" self w) = Ok r ->
     r !! "status" = None ->
     value (stop_cover srv self w) = Raise (KeyError "status")).
Proof.
  split; [| split]; intros r Hstate Hput Hnone.
  - unfold open_cover. unfold bind at 1. unfold get_self.
    cbn [value object world]. rewrite Hstate. cbn [negb].
    rewrite (bind_ok _ _ _ _ _ Hput).
    rewrite (bind_ok _ _ _ _ tt (_start_watcher_value _ _ _)).
    unfold status_get_is_done. rewrite Hnone. reflexivity.
  - unfold close_cover. unfold bind at 1. unfold get_self.
    cbn [value object world]. rewrite Hstate. cbn [negb].
    rewrite (bind_ok _ _ _ _ _ Hput).
    rewrite (bind_ok _ _ _ _ tt (_start_watcher_value _ _ _)).
    unfold status_get_is_done. rewrite Hnone. reflexivity.
  - unfold stop_cover. unfold bind at 1. unfold get_self.
    cbn [value object world]. rewrite Hstate. cbn [negb].
    rewrite (bind_ok _ _ _ _ _ Hput).
    rewrite (bind_ok _ _ _ _ tt (_start_watcher_value _ _ _)).
    unfold bind, getitem. rewrite Hnone. reflexivity.
Qed.

Lemma missing_status_false_or_key_error_witness :
  value (open_cover (answering ∅ ∅) gate idle_world) = Ok (Some false)
  /\ value (close_cover (answering ∅ ∅) gate idle_world) = Ok (Some false)
  /\ value (stop_cover (answering ∅ ∅) gate idle_world) = Raise (KeyError "status").
Proof.
  destruct (missing_status_false_or_key_error (answering ∅ ∅) gate idle_world)
    as (Hopen & Hclose & Hstop).
  split; [| split].
  - apply (Hopen ∅); [reflexivity | vm_compute; reflexivity | reflexivity].
  - apply (Hclose ∅); [reflexivity | vm_compute; reflexivity | reflexivity].
  - apply (Hstop ∅); [reflexivity | vm_compute; reflexivity | reflexivity].
Defined.

(** ** Teardown *)

Lemma maintains_init_token_supplied srv : maintains token_supplied (init_token srv).
Proof.
  intros self w [Hattr Htoken].
  unfold init_token, bind, get_self. cbn [value object world].
  destruct (access_token self) as [t |] eqn:Ht; [| contradiction].
  cbn [ret value object world]. split; [exact Hattr | congruence].
Qed.

Lemma maintains_init_body_supplied srv : maintains token_supplied (init_body srv).
Proof.
  unfold init_body.
  apply maintains_bind; [apply maintains_init_token_supplied | intros _].
  apply maintains_bind.
  - apply maintains_init_device; auto.
  - intros _. apply maintains_init_try; auto.
Qed.

Lemma maintains_perform_supplied srv c : maintains token_supplied (perform srv c).
Proof.
  destruct c; cbn [perform].
  - apply maintains_update; auto.
  - apply maintains_bind; [apply maintains_open_cover; auto | intros _; apply maintains_ret].
  - apply maintains_bind; [apply maintains_close_cover; auto | intros _; apply maintains_ret].
  - apply maintains_bind; [apply maintains_stop_cover; auto | intros _; apply maintains_ret].
Qed.

Lemma after_calls_supplied srv cs self w :
  token_supplied self w ->
  token_supplied (fst (after_calls srv cs self w)) (snd (after_calls srv cs self w)).
Proof.
  revert self w. induction cs as [| c cs IH]; intros self w H; cbn [after_calls].
  - exact H.
  - apply IH. apply maintains_perform_supplied. exact H.
Qed.

(** C8: when the access token was supplied to the constructor,
    [_obtained_token] is never assigned, neither by [__init__] nor by any
    later call, and [__del__] raises [AttributeError] on reading it. *)
Theorem teardown_raises_when_token_supplied srv args w obj w' t cs :
  arg_access_token args = Some t ->
  __init__ srv args w = (Ok obj, w') ->
  value (__del__ srv (fst (after_calls srv cs obj w')) (snd (after_calls srv cs obj w')))
  = Raise (AttributeError "_obtained_token").
Proof.
  intros Ht Hinit.
  assert (Hobj : token_supplied obj w').
  { pose proof (maintains_init_body_supplied srv (fresh args) w) as Hbody.
    unfold __init__ in Hinit. cbv zeta in Hinit.
    destruct (value (init_body srv (fresh args) w)); [| discriminate Hinit].
    injection Hinit as <- <-. apply Hbody.
    split; [reflexivity |]. cbn [fresh access_token]. congruence. }
  destruct (after_calls_supplied srv cs obj w' Hobj) as [Hattr _].
  unfold __del__, bind, get_self. cbn [value object world].
  rewrite Hattr. reflexivity.
Qed.

Lemma teardown_raises_when_token_supplied_witness :
  exists obj w',
    __init__ (answering (sample (JInt 0) (JInt 0) (JInt 0) (JInt 0)) ∅) gate_args idle_world
    = (Ok obj, w')
    /\ value (__del__ (answering (sample (JInt 0) (JInt 0) (JInt 0) (JInt 0)) ∅) obj w')
       = Raise (AttributeError "_obtained_token").
Proof.
  eexists. eexists. split.
  - vm_compute. reflexivity.
  - apply (teardown_raises_when_token_supplied
             (answering (sample (JInt 0) (JInt 0) (JInt 0) (JInt 0)) ∅)
             gate_args idle_world _ _ "token" []).
    + reflexivity.
    + vm_compute. reflexivity.
Defined.

(** ** Timeouts *)

Lemma all_bounded_request s w meth url :
  all_bounded s w -> all_bounded s (record_request (mkRequest meth url (Some 10)) w).
Proof. intros H. constructor; [reflexivity | exact H]. Qed.

Lemma find_automation_world wanted l self w :
  requests (world (find_automation wanted l self w)) = requests w.
Proof.
  apply (maintains_find_automation (fun _ w' => requests w' = requests w)); auto.
Qed.

Lemma maintains_perform_bounded srv c : maintains all_bounded (perform srv c).
Proof.
  pose proof all_bounded_request as Hreq.
  destruct c; cbn [perform].
  - apply maintains_update; auto.
  - apply maintains_bind; [apply maintains_open_cover; auto | intros _; apply maintains_ret].
  - apply maintains_bind; [apply maintains_close_cover; auto | intros _; apply maintains_ret].
  - apply maintains_bind; [apply maintains_stop_cover; auto | intros _; apply maintains_ret].
Qed.

Lemma maintains_init_body_bounded srv : maintains all_bounded (init_body srv).
Proof.
  pose proof all_bounded_request as Hreq.
  unfold init_body.
  apply maintains_bind; [apply maintains_init_token; auto | intros _].
  apply maintains_bind.
  - apply maintains_init_device; auto.
  - intros _. apply maintains_init_try; auto.
Qed.

Lemma maintains___del___bounded srv : maintains all_bounded (__del__ srv).
Proof.
  pose proof all_bounded_request as Hreq.
  unfold __del__.
  apply maintains_bind; [apply maintains_get_self | intros self].
  destruct (_obtained_token self) as [| []]; try apply maintains_ret;
    [apply maintains_raise |].
  destruct (access_token self); [| apply maintains_ret].
  apply maintains_bind; [apply maintains_remove_token; auto | intros _; apply maintains_ret].
Qed.

(** The timeout argument of the requests.  Each of the five network
    operations records its request with the timeout of 10 ([_get_variable]
    and [_put_command] record none when there is no token to send), and so
    does every request of a call of the host, of the constructor and of the
    teardown.  How long such a request can block is decided by the transport
    and is not part of this model. *)
Lemma every_request_has_timeout_10 srv self w :
  requests (world (get_token srv self w))
  = mkRequest POST (particle_url self ++ "/oauth/token") (Some 10) :: requests w
  /\
  requests (world (remove_token srv self w))
  = mkRequest DELETE
      (particle_url self ++ "/v1/access_tokens/" ++ py_str (access_token self))
      (Some 10) :: requests w
  /\
  requests (world (get_device_id srv self w))
  = mkRequest GET
      (particle_url self ++ "/api/v1/users/?access_token=" ++ py_str (access_token self))
      (Some 10) :: requests w
  /\
  (forall var,
     requests (world (_get_variable srv var self w))
     = match access_token self with
       | Some _ => mkRequest GET (execute_url self var) (Some 10) :: requests w
       | None => requests w
       end)
  /\
  (forall func,
     requests (world (_put_command srv func self w))
     = match access_token self with
       | Some _ => mkRequest GET (execute_url self func) (Some 10) :: requests w
       | None => requests w
       end)
  /\
  (forall c,
     Forall bounded (requests w) ->
     Forall bounded (requests (world (perform srv c self w))))
  /\
  (forall args,
     Forall bounded (requests w) ->
     Forall bounded (requests (snd (__init__ srv args w))))
  /\
  (Forall bounded (requests w) ->
   Forall bounded (requests (world (__del__ srv self w)))).
Proof.
  repeat split.
  - unfold get_token, try_except, bind, get_self, http, json, getitem, log, ret, raise.
    cbn [value object world].
    destruct (post_oauth_token srv _ _) as [f | [body |]]; cbn [value object world];
      try reflexivity.
    destruct (body !! "access_token"); reflexivity.
  - unfold remove_token, bind, get_self, http. cbn [value object world].
    destruct (delete_access_token srv _ _); reflexivity.
  - unfold get_device_id, bind, get_self, http, json, ret, raise.
    cbn [value object world].
    destruct (get_users srv _ _) as [f | [[l |] |]]; cbn [value object world];
      try reflexivity.
    apply find_automation_world.
  - intros var.
    unfold _get_variable, bind, get_self, lift, bearer, log, http, json, ret, raise.
    cbn [value object world].
    destruct (access_token self); cbn [value object world]; [| reflexivity].
    destruct (get_execute srv _ _) as [f | [body |]]; reflexivity.
  - intros func.
    unfold _put_command, bind, get_self, lift, bearer, log, http, json, ret, raise.
    cbn [value object world].
    destruct (access_token self); cbn [value object world]; [| reflexivity].
    destruct (get_execute srv _ _) as [f | [body |]]; reflexivity.
  - intros c. apply (maintains_perform_bounded srv c self w).
  - intros args H. unfold __init__. cbv zeta.
    pose proof (maintains_init_body_bounded srv (fresh args) w H) as Hbody.
    destruct (value (init_body srv (fresh args) w)); exact Hbody.
  - apply (maintains___del___bounded srv self w).
Qed.



(** * Further properties *)

(** ** The classifier, outcome by outcome *)

(** X1: on integer telemetry the classifier returns Moving exactly when a
    velocity is positive, whatever the positions and the other velocity. *)
Theorem moving_iff_positive_velocity status p1 p2 v1 v2 self w :
  has_sample status (JInt p1) (JInt p2) (JInt v1) (JInt v2) ->
  value (_get_gate_status status self w) = Ok (Some STATE_MOVING)
  <-> 0 < v1 \/ 0 < v2.
Proof.
  intros Hs. rewrite (_get_gate_status_ints _ _ _ _ _ self w Hs).
  guards; (split; [intros Hv; try discriminate Hv; lia | intros Hv; try reflexivity; lia]).
Qed.

Lemma moving_iff_positive_velocity_witness :
  value (_get_gate_status (sample (JInt 100) (JInt 100) (JInt 0) (JInt 7)) gate idle_world)
  = Ok (Some STATE_MOVING).
Proof.
  apply (moving_iff_positive_velocity
           (sample (JInt 100) (JInt 100) (JInt 0) (JInt 7)) 100 100 0 7 gate idle_world).
  - apply sample_has_sample.
  - right. lia.
Defined.

(** X2: on integer telemetry the classifier never raises, and it returns
    [None] exactly when no velocity is positive and either a velocity is
    negative or no position is positive and one is negative. *)
Theorem no_guard_iff status p1 p2 v1 v2 self w :
  has_sample status (JInt p1) (JInt p2) (JInt v1) (JInt v2) ->
  (forall e, value (_get_gate_status status self w) <> Raise e)
  /\
  (value (_get_gate_status status self w) = Ok None
   <-> v1 <= 0 /\ v2 <= 0
       /\ (v1 < 0 \/ v2 < 0 \/ (p1 <= 0 /\ p2 <= 0 /\ (p1 < 0 \/ p2 < 0)))).
Proof.
  intros Hs. rewrite (_get_gate_status_ints _ _ _ _ _ self w Hs).
  split.
  - intros e. guards; discriminate.
  - guards; (split; [intros Hv; try discriminate Hv; lia | intros Hv; try reflexivity; lia]).
Qed.

Lemma no_guard_iff_witness :
  value (_get_gate_status (sample (JInt 0) (JInt (-3)) (JInt 0) (JInt 0)) gate idle_world)
  = Ok None.
Proof.
  apply (no_guard_iff (sample (JInt 0) (JInt (-3)) (JInt 0) (JInt 0)) 0 (-3) 0 0 gate idle_world).
  - apply sample_has_sample.
  - lia.
Defined.

(** X3: on integer telemetry the classifier returns Open only at positions
    100 and 100 with both velocities 0, and Stopped exactly at the other
    samples with both velocities 0 and a position above 0. *)
Theorem open_and_stopped_iff status p1 p2 v1 v2 self w :
  has_sample status (JInt p1) (JInt p2) (JInt v1) (JInt v2) ->
  (value (_get_gate_status status self w) = Ok (Some STATE_OPEN)
   <-> p1 = 100 /\ p2 = 100 /\ v1 = 0 /\ v2 = 0)
  /\
  (value (_get_gate_status status self w) = Ok (Some STATE_STOPPED)
   <-> v1 = 0 /\ v2 = 0 /\ (0 < p1 \/ 0 < p2) /\ ~ (p1 = 100 /\ p2 = 100)).
Proof.
  intros Hs. rewrite (_get_gate_status_ints _ _ _ _ _ self w Hs).
  split; guards;
    (split; [intros Hv; try discriminate Hv; lia | intros Hv; try reflexivity; lia]).
Qed.

Lemma open_and_stopped_iff_witness :
  value (_get_gate_status (sample (JInt 100) (JInt 99) (JInt 0) (JInt 0)) gate idle_world)
  = Ok (Some STATE_STOPPED).
Proof.
  apply (open_and_stopped_iff
           (sample (JInt 100) (JInt 99) (JInt 0) (JInt 0)) 100 99 0 0 gate idle_world).
  - apply sample_has_sample.
  - lia.
Defined.

(** X4: when the first velocity is a string, or both velocities are 0 and
    the first position is a string, the classifier raises [TypeError] from an
    ordering test, having logged only its entry line. *)
Theorem string_telemetry_raises_type_error status p1 p2 v1 v2 s self w :
  has_sample status p1 p2 v1 v2 ->
  (v1 = JStr s \/ (v1 = JInt 0 /\ v2 = JInt 0 /\ p1 = JStr s)) ->
  _get_gate_status status self w = Out (Raise TypeError) self (entered w).
Proof.
  intros [H1 H2 H3 H4] Hstr.
  unfold _get_gate_status, bind, getitem, log, ret, lift, entered.
  cbn [value object world]. rewrite H1. cbn [value object world].
  rewrite H2. cbn [value object world]. rewrite H3. cbn [value object world].
  rewrite H4. cbn [value object world].
  destruct Hstr as [-> | (-> & -> & ->)].
  - cbn [py_eq_int py_gt_int and_then or_else andb value object world].
    rewrite !andb_false_r. cbn [py_eq_int py_gt_int and_then or_else andb value object world].
    destruct (py_eq_int p1 100 && py_eq_int p2 100); cbn [andb];
    destruct (py_eq_int p1 0 && py_eq_int p2 0); reflexivity.
  - cbn [py_eq_int py_gt_int and_then or_else andb value object world Z.eqb].
    reflexivity.
Qed.

Lemma string_telemetry_raises_type_error_witness :
  _get_gate_status (sample (JInt 10) (JInt 10) (JStr "fast") (JInt 0)) gate idle_world
  = Out (Raise TypeError) gate (entered idle_world).
Proof.
  apply (string_telemetry_raises_type_error
           (sample (JInt 10) (JInt 10) (JStr "fast") (JInt 0))
           (JInt 10) (JInt 10) (JStr "fast") (JInt 0) "fast" gate idle_world).
  - apply sample_has_sample.
  - left. reflexivity.
Defined.

(** ** Updates that raise, and updates that classify *)

Lemma update_try_uncaught srv self w e :
  handled_by_update e = false ->
  poll_raises srv self w e ->
  value (update_try srv self w) = Raise e
  /\ object (update_try srv self w) = self.
Proof.
  intros He Hraises. unfold update_try.
  assert (Hbody :
    forall k : option string -> M unit,
      value (bind (_get_variable srv "diagnosis")
               (fun status => bind (_get_gate_status status) k) self w) = Raise e
      /\ object (bind (_get_variable srv "diagnosis")
                   (fun status => bind (_get_gate_status status) k) self w) = self).
  { intros k. destruct Hraises as [Hfetch | (status & Hfetch & Hclass)].
    - rewrite (bind_raise _ _ _ _ _ Hfetch). cbn [value object].
      split; [reflexivity | apply _get_variable_object].
    - rewrite (bind_ok _ _ _ _ _ Hfetch).
      rewrite _get_variable_object. fold (polled srv self w).
      rewrite (bind_raise _ _ _ _ _ Hclass). cbn [value object].
      split; [reflexivity | apply _get_gate_status_object]. }
  match goal with
  | |- context [try_except (bind _ (fun status => bind _ ?k)) _] =>
      destruct (Hbody k) as [Hv Ho]
  end.
  rewrite (try_except_uncaught _ _ _ _ _ Hv); [split; assumption |].
  destruct e; try reflexivity; discriminate He.
Qed.

(** X5: the [try] statement of [update] handles [ConnectionError] and
    [KeyError] only.  Any other exception of the fetch or of the classifier
    (a read timeout, a body that is not JSON, a [TypeError]) leaves [update]
    as it is, with the object unchanged and no listener removed. *)
Theorem update_propagates_unhandled srv self w e :
  handled_by_update e = false ->
  poll_raises srv self w e ->
  value (update srv self w) = Raise e
  /\ object (update srv self w) = self
  /\ unsubscribed (world (update srv self w)) = unsubscribed w.
Proof.
  intros He Hraises.
  destruct (update_try_uncaught srv self w e He Hraises) as [Hv Ho].
  unfold update. rewrite (bind_raise _ _ _ _ _ Hv). cbn [value object world].
  split; [reflexivity |]. split; [exact Ho |].
  apply update_try_watcher.
Qed.

Lemma update_propagates_unhandled_witness :
  value (update timing_out watched_gate watched_world) = Raise ReadTimeout
  /\ object (update timing_out watched_gate watched_world) = watched_gate
  /\ unsubscribed (world (update timing_out watched_gate watched_world)) = [].
Proof.
  apply (update_propagates_unhandled timing_out watched_gate watched_world ReadTimeout).
  - reflexivity.
  - left. vm_compute. reflexivity.
Defined.

Lemma update_no_token srv self w :
  access_token self = None ->
  update srv self w = Out (Raise TypeError) self w.
Proof.
  intros H.
  assert (Hget : _get_variable srv "diagnosis" self w = Out (Raise TypeError) self w).
  { unfold _get_variable. unfold bind at 1. unfold get_self.
    cbn [value object world]. unfold bind at 1. unfold lift, bearer.
    rewrite H. reflexivity. }
  assert (Hbody : forall (B : Type) (k : gmap string jval -> M B),
             bind (_get_variable srv "diagnosis") k self w
             = Out (Raise TypeError) self w).
  { intros B k. rewrite (bind_raise _ _ _ _ TypeError); rewrite Hget; reflexivity. }
  assert (Htry : update_try srv self w = Out (Raise TypeError) self w).
  { unfold update_try.
    rewrite (try_except_uncaught _ _ _ _ TypeError);
      [apply Hbody | rewrite Hbody; reflexivity | reflexivity]. }
  unfold update. rewrite (bind_raise _ _ _ _ TypeError); rewrite Htry; reflexivity.
Qed.

(** X6: without an access token [update] raises [TypeError] before any
    request is issued: nothing is sent, nothing is logged, the object is
    unchanged. *)
Theorem update_without_token srv self w :
  access_token self = None ->
  value (update srv self w) = Raise TypeError
  /\ object (update srv self w) = self
  /\ world (update srv self w) = w.
Proof. intros H. rewrite (update_no_token _ _ _ H). repeat split. Qed.

Lemma update_without_token_witness :
  value (update refusing (with_access_token None gate) idle_world) = Raise TypeError
  /\ object (update refusing (with_access_token None gate) idle_world)
     = with_access_token None gate
  /\ world (update refusing (with_access_token None gate) idle_world) = idle_world.
Proof.
  apply (update_without_token refusing (with_access_token None gate) idle_world).
  reflexivity.
Defined.

Lemma update_try_classified srv self w status st :
  value (_get_variable srv "diagnosis" self w) = Ok status ->
  value (_get_gate_status status self (polled srv self w)) = Ok st ->
  value (update_try srv self w) = Ok tt
  /\ object (update_try srv self w) = with_available true (with_state st self).
Proof.
  intros Hfetch Hclass. unfold update_try.
  assert (Hbody :
    bind (_get_variable srv "diagnosis")
      (fun status =>
         bind (_get_gate_status status)
           (fun state =>
              bind (set_self (with_state state))
                (fun _ =>
                   bind get_self
                     (fun self =>
                        bind (log DEBUG (py_str (_state self)))
                          (fun _ => set_self (with_available true))))))
      self w
    = Out (Ok tt) (with_available true (with_state st self))
        (record_log DEBUG (py_str st)
           (world (_get_gate_status status self (polled srv self w))))).
  { rewrite (bind_ok _ _ _ _ _ Hfetch).
    rewrite _get_variable_object. fold (polled srv self w).
    rewrite (bind_ok _ _ _ _ _ Hclass).
    rewrite _get_gate_status_object. reflexivity. }
  rewrite (try_except_ok _ _ _ _ tt) by (rewrite Hbody; reflexivity).
  rewrite Hbody. split; reflexivity.
Qed.

(** X7: when the fetch answers integer telemetry, [update] returns, the
    entity is available, its state is what the classifier returned, never
    offline, and [is_closed] is [True] exactly at the all-zero sample. *)
Theorem update_on_integers srv self w status p1 p2 v1 v2 :
  value (_get_variable srv "diagnosis" self w) = Ok status ->
  has_sample status (JInt p1) (JInt p2) (JInt v1) (JInt v2) ->
  value (update srv self w) = Ok tt
  /\ available (object (update srv self w)) = true
  /\ Ok (_state (object (update srv self w)))
     = value (_get_gate_status status self (polled srv self w))
  /\ _state (object (update srv self w)) <> Some STATE_OFFLINE
  /\ (is_closed (object (update srv self w)) = Some true
      <-> p1 = 0 /\ p2 = 0 /\ v1 = 0 /\ v2 = 0).
Proof.
  intros Hfetch Hs.
  pose proof (_get_gate_status_ints _ _ _ _ _ self (polled srv self w) Hs) as Heq.
  assert (Hst : exists st,
             value (_get_gate_status status self (polled srv self w)) = Ok st
             /\ st <> Some STATE_OFFLINE
             /\ (st = Some STATE_CLOSED <-> p1 = 0 /\ p2 = 0 /\ v1 = 0 /\ v2 = 0)).
  { rewrite Heq. clear Heq.
    guards; eexists; (split; [reflexivity |]); (split; [discriminate |]);
      (split; [intros Hv; try discriminate Hv; lia | intros Hv; try reflexivity; lia]). }
  destruct Hst as (st & Hclass & Hoff & Hclosed).
  destruct (update_try_classified srv self w status st Hfetch Hclass) as [Hv Ho].
  rewrite (update_after_try _ _ _ Hv). cbv zeta. rewrite Ho, Hclass.
  assert (Hfinal : forall o : outcome unit,
             object o = with_available true (with_state st self)
             \/ object o = with_unsub_listener_cover None
                             (with_available true (with_state st self)) ->
             value o = Ok tt ->
             value o = Ok tt
             /\ available (object o) = true
             /\ Ok (_state (object o)) = Ok st
             /\ _state (object o) <> Some STATE_OFFLINE
             /\ (is_closed (object o) = Some true
                 <-> p1 = 0 /\ p2 = 0 /\ v1 = 0 /\ v2 = 0)).
  { intros o Hobj Hval.
    assert (Hstate : _state (object o) = st /\ available (object o) = true)
      by (destruct Hobj as [-> | ->]; split; reflexivity).
    destruct Hstate as [Hstate Havail].
    split; [exact Hval |]. split; [exact Havail |].
    split; [rewrite Hstate; reflexivity |].
    split; [rewrite Hstate; exact Hoff |].
    unfold is_closed. rewrite Hstate. rewrite <- Hclosed.
    destruct st as [s |]; [| split; discriminate].
    split.
    - intros H. injection H as H. apply String.eqb_eq in H. congruence.
    - intros H. injection H as ->. reflexivity. }
  apply Hfinal.
  - destruct (negb _); [| left; reflexivity].
    cbn [_unsub_listener_cover with_available with_state].
    destruct (_unsub_listener_cover self); [right | left]; reflexivity.
  - destruct (negb _); [| reflexivity].
    destruct (_unsub_listener_cover _); reflexivity.
Qed.

Lemma update_on_integers_witness :
  is_closed (object (update (answering (sample (JInt 0) (JInt 0) (JInt 0) (JInt 0)) ∅)
                       gate idle_world)) = Some true.
Proof.
  apply (update_on_integers
           (answering (sample (JInt 0) (JInt 0) (JInt 0) (JInt 0)) ∅)
           gate idle_world (sample (JInt 0) (JInt 0) (JInt 0) (JInt 0)) 0 0 0 0).
  - vm_compute. reflexivity.
  - apply sample_has_sample.
  - repeat split; reflexivity.
Defined.

(** ** The listeners of the entity *)

Lemma maintains__start_watcher_listeners command :
  maintains listeners_ok (_start_watcher command).
Proof.
  intros self w (Hnodup & Hlt & Hheld).
  unfold _start_watcher, bind, log, get_self, track_utc_time_change, set_self, ret.
  cbn [value object world].
  destruct (_unsub_listener_cover self) as [h |] eqn:Hcur; cbn [value object world].
  - unfold listeners_ok. rewrite Hcur. auto.
  - unfold listeners_ok.
    cbn [_unsub_listener_cover with_unsub_listener_cover record_tracked record_log
           tracked unsubscribed].
    split; [exact Hnodup |]. split.
    + intros h Hin. specialize (Hlt h Hin). lia.
    + split; [lia |]. split; [| congruence].
      intros Hin. specialize (Hlt _ Hin). lia.
Qed.

Lemma maintains_update_listeners srv : maintains listeners_ok (update srv).
Proof.
  intros self w H.
  assert (Htry : listeners_ok (object (update_try srv self w)) (world (update_try srv self w))).
  { revert H. apply maintains_update_try; auto. }
  destruct (value (update_try srv self w)) as [[] | e] eqn:Hv.
  - rewrite (update_after_try _ _ _ Hv). cbv zeta.
    destruct (negb _); [| exact Htry].
    destruct Htry as (Hnodup & Hlt & Hheld).
    destruct (_unsub_listener_cover (object (update_try srv self w))) as [h |] eqn:Hcur;
      cbn [object world].
    + destruct Hheld as (Hh & Hnotin & Hcount).
      unfold listeners_ok.
      cbn [_unsub_listener_cover with_unsub_listener_cover record_unsubscribed
             tracked unsubscribed].
      split; [constructor; assumption |]. split.
      * intros h' [<- | Hin]; [exact Hh | apply Hlt; exact Hin].
      * cbn [length]. exact Hcount.
    + unfold listeners_ok. rewrite Hcur. auto.
  - unfold update. rewrite (bind_raise _ _ _ _ _ Hv). exact Htry.
Qed.

Lemma maintains_perform_listeners srv c : maintains listeners_ok (perform srv c).
Proof.
  destruct c; cbn [perform].
  - apply maintains_update_listeners.
  - apply maintains_bind; [| intros _; apply maintains_ret].
    unfold open_cover.
    apply maintains_bind; [apply maintains_get_self | intros s0].
    destruct (negb _); [| apply maintains_ret].
    apply maintains_bind; [apply maintains__put_command; auto | intros r].
    apply maintains_bind; [apply maintains__start_watcher_listeners | intros _].
    apply maintains_ret.
  - apply maintains_bind; [| intros _; apply maintains_ret].
    unfold close_cover.
    apply maintains_bind; [apply maintains_get_self | intros s0].
    destruct (negb _); [| apply maintains_ret].
    apply maintains_bind; [apply maintains__put_command; auto | intros r].
    apply maintains_bind; [apply maintains__start_watcher_listeners | intros _].
    apply maintains_ret.
  - apply maintains_bind; [| intros _; apply maintains_ret].
    unfold stop_cover.
    apply maintains_bind; [apply maintains_get_self | intros s0].
    destruct (negb _); [| apply maintains_ret].
    apply maintains_bind; [apply maintains__put_command; auto | intros r].
    apply maintains_bind; [apply maintains__start_watcher_listeners | intros _].
    apply maintains_bind; [apply maintains_getitem | intros status].
    apply maintains_ret.
Qed.

Lemma maintains_init_body_listeners srv : maintains listeners_ok (init_body srv).
Proof.
  unfold init_body.
  apply maintains_bind; [apply maintains_init_token; auto | intros _].
  apply maintains_bind; [apply maintains_init_device; auto | intros _].
  intros s w H. rewrite init_try_is_update.
  apply maintains_update_listeners. exact H.
Qed.

(** X8: from a world whose listeners are accounted for, construction and
    any sequence of updates and commands keep them so: no listener is
    removed twice, and the listeners registered are the removed ones and the
    one the object holds, so at most one is ever active. *)
Theorem listeners_stay_accounted srv args w obj w' cs :
  listeners_ok (fresh args) w ->
  __init__ srv args w = (Ok obj, w') ->
  listeners_ok (fst (after_calls srv cs obj w')) (snd (after_calls srv cs obj w')).
Proof.
  intros Hw Hinit.
  assert (Hobj : listeners_ok obj w').
  { pose proof (maintains_init_body_listeners srv (fresh args) w Hw) as Hbody.
    unfold __init__ in Hinit. cbv zeta in Hinit.
    destruct (value (init_body srv (fresh args) w)); [| discriminate Hinit].
    injection Hinit as <- <-. exact Hbody. }
  clear Hw Hinit. revert obj w' Hobj.
  induction cs as [| c cs IH]; intros obj w' Hobj; cbn [after_calls].
  - exact Hobj.
  - apply IH. apply maintains_perform_listeners. exact Hobj.
Qed.

Lemma listeners_stay_accounted_witness :
  exists obj w',
    __init__ (answering (sample (JInt 50) (JInt 50) (JInt 0) (JInt 0)) ∅) gate_args idle_world
    = (Ok obj, w')
    /\ listeners_ok
         (fst (after_calls (answering (sample (JInt 50) (JInt 50) (JInt 0) (JInt 0)) ∅)
                 [OpenCover; CloseCover; Update; StopCover] obj w'))
         (snd (after_calls (answering (sample (JInt 50) (JInt 50) (JInt 0) (JInt 0)) ∅)
                 [OpenCover; CloseCover; Update; StopCover] obj w')).
Proof.
  eexists. eexists. split.
  - vm_compute. reflexivity.
  - apply (listeners_stay_accounted
             (answering (sample (JInt 50) (JInt 50) (JInt 0) (JInt 0)) ∅)
             gate_args idle_world).
    + repeat split; [constructor | intros h [] ].
    + vm_compute. reflexivity.
Defined.

(** ** Commands that fail, and commands that are answered *)

Lemma method_sends srv c self w :
  py_in (_state self) [idle_state c] = false ->
  method srv c self w
  = bind (_put_command srv (verb c))
      (fun r =>
         bind (_start_watcher (verb c))
           (fun _ =>
              match c with
              | CmdStop =>
                  bind (getitem r "status")
                    (fun status => ret (Some (py_eq_str status "done")))
              | _ => ret (Some (status_get_is_done r))
              end))
      self w.
Proof.
  intros H.
  destruct c; cbn [method verb idle_state] in *;
    [unfold open_cover | unfold close_cover | unfold stop_cover];
    unfold bind at 1; unfold get_self; cbn [value object world];
    rewrite H; reflexivity.
Qed.

(** X9: when sending the command raises, the command raises the same
    exception, the object is unchanged and no listener is registered: the
    watcher is started only after the command was answered. *)
Theorem failed_command_starts_no_watcher srv c self w e :
  py_in (_state self) [idle_state c] = false ->
  value (_put_command srv (verb c) self w) = Raise e ->
  value (method srv c self w) = Raise e
  /\ object (method srv c self w) = self
  /\ tracked (world (method srv c self w)) = tracked w.
Proof.
  intros Hstate Hput.
  rewrite (method_sends _ _ _ _ Hstate).
  rewrite (bind_raise _ _ _ _ _ Hput). cbn [value object world].
  split; [reflexivity |]. split.
  - apply _put_command_object.
  - apply _put_command_watcher.
Qed.

Lemma failed_command_starts_no_watcher_witness :
  value (close_cover refusing gate idle_world) = Raise ConnectionError
  /\ object (close_cover refusing gate idle_world) = gate
  /\ tracked (world (close_cover refusing gate idle_world)) = 0%nat.
Proof.
  apply (failed_command_starts_no_watcher refusing CmdClose gate idle_world ConnectionError).
  - reflexivity.
  - vm_compute. reflexivity.
Defined.

Lemma _start_watcher_active command self w :
  _unsub_listener_cover (object (_start_watcher command self w)) <> None.
Proof.
  unfold _start_watcher, bind, log, get_self, track_utc_time_change, set_self, ret.
  cbn [value object world].
  destruct (_unsub_listener_cover self) eqn:H; cbn [value object world].
  - rewrite H. discriminate.
  - discriminate.
Qed.

Lemma _start_watcher_keeps command self w h :
  _unsub_listener_cover self = Some h ->
  _unsub_listener_cover (object (_start_watcher command self w)) = Some h
  /\ tracked (world (_start_watcher command self w)) = tracked w.
Proof.
  intros H.
  unfold _start_watcher, bind, log, get_self, track_utc_time_change, set_self, ret.
  cbn [value object world]. rewrite H. cbn [value object world]. auto.
Qed.

(** X10: once a command is answered the object holds a listener; a
    listener it already held is kept and no other is registered; and with a
    status in the answer the command returns whether it is the string
    "done". *)
Theorem answered_command_watches srv c self w r :
  py_in (_state self) [idle_state c] = false ->
  value (_put_command srv (verb c) self w) = Ok r ->
  _unsub_listener_cover (object (method srv c self w)) <> None
  /\ (forall h,
        _unsub_listener_cover self = Some h ->
        _unsub_listener_cover (object (method srv c self w)) = Some h
        /\ tracked (world (method srv c self w)) = tracked w)
  /\ (forall status,
        r !! "status" = Some status ->
        value (method srv c self w) = Ok (Some (py_eq_str status "done"))).
Proof.
  intros Hstate Hput.
  rewrite (method_sends _ _ _ _ Hstate).
  rewrite (bind_ok _ _ _ _ _ Hput).
  rewrite (bind_ok _ _ _ _ tt (_start_watcher_value _ _ _)).
  rewrite _put_command_object.
  split; [| split].
  - destruct c; [cbn [ret object] | cbn [ret object] |];
      try apply _start_watcher_active.
    unfold bind, getitem. destruct (r !! "status"); cbn [value object world ret raise];
      apply _start_watcher_active.
  - intros h Hh.
    destruct (_start_watcher_keeps (verb c) self (world (_put_command srv (verb c) self w)) h Hh)
      as [Hkeep Htracked].
    rewrite _put_command_watcher in Htracked.
    destruct c; [cbn [ret object world]; auto | cbn [ret object world]; auto |].
    unfold bind, getitem. destruct (r !! "status"); cbn [value object world ret raise]; auto.
  - intros status Hstatus.
    destruct c; cbn [ret value]; unfold status_get_is_done; try rewrite Hstatus;
      try reflexivity.
    unfold bind, getitem. rewrite Hstatus. reflexivity.
Qed.

Lemma answered_command_watches_witness :
  value (stop_cover (answering ∅ {["status" := JStr "done"]}) watched_gate watched_world)
  = Ok (Some true)
  /\ _unsub_listener_cover
       (object (stop_cover (answering ∅ {["status" := JStr "done"]}) watched_gate watched_world))
     = Some 0%nat
  /\ tracked
       (world (stop_cover (answering ∅ {["status" := JStr "done"]}) watched_gate watched_world))
     = 1%nat.
Proof.
  destruct (answered_command_watches
              (answering ∅ {["status" := JStr "done"]}) CmdStop watched_gate watched_world
              {["status" := JStr "done"]})
    as (_ & Hkeep & Hdone).
  - reflexivity.
  - vm_compute. reflexivity.
  - split.
    + apply (Hdone (JStr "done")). reflexivity.
    + apply (Hkeep 0%nat). reflexivity.
Defined.

(** ** The token and the device id *)

(** X11: [get_token] leaves the object alone.  A transport failure and a
    body that is not JSON are raised; an answer without "access_token" is
    not: the method logs an error and returns [None]. *)
Theorem get_token_outcomes srv self w :
  object (get_token srv self w) = self
  /\ match post_oauth_token srv (token_url self) (length (requests w)) with
     | inl f => value (get_token srv self w) = Raise (exn_of_failure f)
     | inr None => value (get_token srv self w) = Raise JSONDecodeError
     | inr (Some body) =>
         value (get_token srv self w) = Ok (body !! "access_token")
         /\ (body !! "access_token" = None ->
             logged (world (get_token srv self w))
             = (ERROR, "Unable to retrieve access token %s") :: logged w)
     end.
Proof.
  unfold token_url.
  unfold get_token, try_except, bind, get_self, http, json, getitem, log, ret, raise.
  cbn [value object world].
  destruct (post_oauth_token srv _ _) as [f | [body |]]; cbn [value object world];
    [auto | | auto].
  destruct (body !! "access_token") as [token |]; cbn [value object world].
  - split; [reflexivity |]. split; [reflexivity | discriminate].
  - split; [reflexivity |]. split; reflexivity.
Qed.

Lemma named_test wanted a :
  match wanted with
  | Some n => String.eqb (info_name a) n
  | None => false
  end = true <-> named wanted a.
Proof.
  unfold named. destruct wanted as [n |].
  - rewrite String.eqb_eq. split; congruence.
  - split; discriminate.
Qed.

Lemma find_automation_first wanted l self w :
  (forall e, value (find_automation wanted l self w) <> Raise e)
  /\ (forall u,
        value (find_automation wanted l self w) = Ok (Some u)
        <-> exists pre a post,
              l = (pre ++ a :: post)%list /\ uuid a = u /\ named wanted a
              /\ Forall (fun b => ~ named wanted b) pre)
  /\ (value (find_automation wanted l self w) = Ok None
      <-> Forall (fun b => ~ named wanted b) l).
Proof.
  revert self w. induction l as [| a l IH]; intros self w; cbn [find_automation].
  - split; [discriminate |]. split.
    + intros u. split; [discriminate |].
      intros (pre & a & post & Hl & _). destruct pre; discriminate Hl.
    + split; [constructor | reflexivity].
  - pose proof (named_test wanted a) as Htest.
    destruct (match wanted with Some n => String.eqb (info_name a) n | None => false end).
    + assert (Ha : named wanted a) by (apply Htest; reflexivity).
      unfold bind, log, ret. cbn [value object world].
      split; [discriminate |]. split.
      * intros u. split.
        -- intros H. injection H as <-. exists [], a, l. repeat split; auto.
        -- intros (pre & a' & post & Hl & Hu & _ & Hpre).
           destruct pre as [| b pre].
           ++ injection Hl as <- _. rewrite Hu. reflexivity.
           ++ injection Hl as <- _. inversion Hpre; subst. contradiction.
      * split; [discriminate |]. intros H. inversion H; subst. contradiction.
    + assert (Ha : ~ named wanted a) by (intros H; apply Htest in H; discriminate H).
      destruct (IH self w) as (IHraise & IHsome & IHnone).
      split; [exact IHraise |]. split.
      * intros u. rewrite IHsome. split.
        -- intros (pre & a' & post & -> & Hu & Hn & Hpre).
           exists (a :: pre), a', post. repeat split; auto.
        -- intros (pre & a' & post & Hl & Hu & Hn & Hpre).
           destruct pre as [| b pre].
           ++ injection Hl as <- _. contradiction.
           ++ injection Hl as <- ->. inversion Hpre; subst.
              exists pre, a', post. repeat split; auto.
      * rewrite IHnone. split.
        -- intros H. constructor; assumption.
        -- intros H. inversion H; subst. assumption.
Qed.

Lemma get_device_id_listed srv self w l :
  get_users srv (users_url self) (length (requests w)) = inr (Some (Some l)) ->
  value (get_device_id srv self w)
  = value (find_automation (device_name self) l self
             (record_request (mkRequest GET (users_url self) (Some 10)) w)).
Proof.
  intros H. unfold users_url in H.
  unfold get_device_id, bind, get_self, http, json, ret.
  cbn [value object world]. rewrite H. reflexivity.
Qed.

(** X12: when the listing is answered, [get_device_id] returns the uuid of
    the first automation that carries the device name, and [None] exactly
    when none does. *)
Theorem get_device_id_first_match srv self w l :
  get_users srv (users_url self) (length (requests w)) = inr (Some (Some l)) ->
  (forall u,
     value (get_device_id srv self w) = Ok (Some u)
     <-> exists pre a post,
           l = (pre ++ a :: post)%list /\ uuid a = u /\ named (device_name self) a
           /\ Forall (fun b => ~ named (device_name self) b) pre)
  /\ (value (get_device_id srv self w) = Ok None
      <-> Forall (fun b => ~ named (device_name self) b) l).
Proof.
  intros H. rewrite (get_device_id_listed _ _ _ _ H).
  apply find_automation_first.
Qed.

Lemma get_device_id_first_match_witness :
  value (get_device_id two_gates gate idle_world) = Ok (Some "a1b2").
Proof.
  apply (get_device_id_first_match two_gates gate idle_world
           [mkAutomation "c3d4" "back gate";
            mkAutomation "a1b2" "front gate";
            mkAutomation "e5f6" "front gate"]).
  - reflexivity.
  - exists [mkAutomation "c3d4" "back gate"], (mkAutomation "a1b2" "front gate"),
      [mkAutomation "e5f6" "front gate"].
    repeat split.
    constructor; [discriminate | constructor].
Defined.

(** ** The constructor, statement by statement *)

Lemma get_token_object srv self w : object (get_token srv self w) = self.
Proof. apply (maintains_get_token (fun s _ => s = self)); auto. Qed.

Lemma get_device_id_object srv self w : object (get_device_id srv self w) = self.
Proof. apply (maintains_get_device_id (fun s _ => s = self)); auto. Qed.

Lemma init_token_supplied srv self w t :
  access_token self = Some t -> init_token srv self w = Out (Ok tt) self w.
Proof.
  intros H. unfold init_token. unfold bind at 1. unfold get_self.
  cbn [value object world]. rewrite H. reflexivity.
Qed.

Lemma init_token_acquires srv self w :
  access_token self = None ->
  init_token srv self w
  = match value (get_token srv self w) with
    | Ok token => Out (Ok tt) (acquired token self) (world (get_token srv self w))
    | Raise e => Out (Raise e) self (world (get_token srv self w))
    end.
Proof.
  intros H. unfold init_token. unfold bind at 1. unfold get_self.
  cbn [value object world]. rewrite H.
  destruct (value (get_token srv self w)) as [token | e] eqn:Hv.
  - rewrite (bind_ok _ _ _ _ _ Hv). rewrite get_token_object. reflexivity.
  - rewrite (bind_raise _ _ _ _ _ Hv). rewrite get_token_object. reflexivity.
Qed.

Lemma init_device_looks_up srv self w :
  device_id self = None ->
  init_device srv self w
  = match value (get_device_id srv self w) with
    | Ok id => Out (Ok tt) (with_device_id id self) (world (get_device_id srv self w))
    | Raise e => Out (Raise e) self (world (get_device_id srv self w))
    end.
Proof.
  intros H. unfold init_device. unfold bind at 1. unfold get_self.
  cbn [value object world]. rewrite H.
  destruct (value (get_device_id srv self w)) as [id | e] eqn:Hv.
  - rewrite (bind_ok _ _ _ _ _ Hv). rewrite get_device_id_object. reflexivity.
  - rewrite (bind_raise _ _ _ _ _ Hv). rewrite get_device_id_object. reflexivity.
Qed.

Lemma __init___raises srv args w e :
  value (init_body srv (fresh args) w) = Raise e ->
  fst (__init__ srv args w) = Raise e.
Proof. intros H. unfold __init__. cbv zeta. rewrite H. reflexivity. Qed.

(** X13: the constructor handles no exception raised before its [try]
    statement: what [get_token] raises, and what [get_device_id] raises,
    leaves [__init__]. *)
Theorem constructor_propagates_resolution_errors srv args w e :
  (arg_access_token args = None ->
   value (get_token srv (fresh args) w) = Raise e ->
   fst (__init__ srv args w) = Raise e)
  /\
  (forall t,
     arg_access_token args = Some t ->
     value (get_device_id srv (fresh args) w) = Raise e ->
     fst (__init__ srv args w) = Raise e).
Proof.
  split.
  - intros Hnone Hraise. apply __init___raises. unfold init_body.
    rewrite (bind_raise _ _ _ _ e); [reflexivity |].
    rewrite init_token_acquires by exact Hnone. rewrite Hraise. reflexivity.
  - intros t Hsome Hraise. apply __init___raises. unfold init_body.
    assert (Htok : init_token srv (fresh args) w = Out (Ok tt) (fresh args) w)
      by (apply (init_token_supplied _ _ _ t); exact Hsome).
    rewrite (bind_ok _ _ _ _ tt) by (rewrite Htok; reflexivity).
    rewrite Htok. cbn [object world].
    rewrite (bind_raise _ _ _ _ e); [reflexivity |].
    rewrite init_device_looks_up by reflexivity. rewrite Hraise. reflexivity.
Qed.

Lemma constructor_propagates_resolution_errors_witness :
  fst (__init__ timing_out gate_args idle_world) = Raise ReadTimeout
  /\ fst (__init__ timing_out (mkArgs (Some "Gate") (Some "front gate")
                                 (Some "user") (Some "secret") None) idle_world)
     = Raise ReadTimeout.
Proof.
  split.
  - apply (constructor_propagates_resolution_errors timing_out gate_args idle_world
             ReadTimeout) with (t := "token").
    + reflexivity.
    + vm_compute. reflexivity.
  - apply (constructor_propagates_resolution_errors timing_out
             (mkArgs (Some "Gate") (Some "front gate") (Some "user") (Some "secret") None)
             idle_world ReadTimeout).
    + reflexivity.
    + vm_compute. reflexivity.
Defined.

(** X14: when no token is supplied and the token answer has no
    "access_token", the constructor goes on with the token [None] and, once
    the device listing is answered, raises [TypeError] from its first
    [update]. *)
Theorem constructor_without_token_raises_type_error srv args w id :
  arg_access_token args = None ->
  value (get_token srv (fresh args) w) = Ok None ->
  value (get_device_id srv (acquired None (fresh args))
           (world (get_token srv (fresh args) w))) = Ok id ->
  fst (__init__ srv args w) = Raise TypeError.
Proof.
  intros Hnone Htoken Hid. apply __init___raises. unfold init_body.
  assert (Htok : init_token srv (fresh args) w
                 = Out (Ok tt) (acquired None (fresh args))
                     (world (get_token srv (fresh args) w))).
  { rewrite init_token_acquires by exact Hnone. rewrite Htoken. reflexivity. }
  rewrite (bind_ok _ _ _ _ tt) by (rewrite Htok; reflexivity).
  rewrite Htok. cbn [object world].
  assert (Hdev : init_device srv (acquired None (fresh args))
                   (world (get_token srv (fresh args) w))
                 = Out (Ok tt) (with_device_id id (acquired None (fresh args)))
                     (world (get_device_id srv (acquired None (fresh args))
                               (world (get_token srv (fresh args) w))))).
  { rewrite init_device_looks_up by reflexivity. rewrite Hid. reflexivity. }
  rewrite (bind_ok _ _ _ _ tt) by (rewrite Hdev; reflexivity).
  rewrite Hdev. cbn [object world].
  rewrite init_try_is_update. rewrite update_no_token by reflexivity. reflexivity.
Qed.

Lemma constructor_without_token_raises_type_error_witness :
  fst (__init__ tokenless tokenless_args idle_world)
  = Raise TypeError.
Proof.
  apply (constructor_without_token_raises_type_error tokenless tokenless_args
           idle_world (Some "a1b2")).
  - reflexivity.
  - vm_compute. reflexivity.
  - vm_compute. reflexivity.
Defined.

(** ** What no call changes *)

Section Lifetime.

Variable P : BftCover -> World -> Prop.

(** [P] reads attributes that [update] and the commands never assign, and
    nothing of the world. *)
Hypothesis P_world : forall s w w', P s w -> P s w'.
Hypothesis P_state : forall s w v, P s w -> P (with_state v s) w.
Hypothesis P_available : forall s w, P s w -> P (with_available true s) w.
Hypothesis P_unsub_listener_cover :
  forall s w v, P s w -> P (with_unsub_listener_cover v s) w.

Variable srv : Server.

Lemma lifetime_update : maintains P (update srv).
Proof. apply maintains_update; eauto. Qed.

Lemma lifetime_init_try : maintains P (init_try srv).
Proof.
  intros s w H. rewrite init_try_is_update. apply lifetime_update. exact H.
Qed.

Lemma lifetime_perform c : maintains P (perform srv c).
Proof.
  destruct c; cbn [perform].
  - apply lifetime_update.
  - apply maintains_bind; [apply maintains_open_cover; eauto | intros _; apply maintains_ret].
  - apply maintains_bind; [apply maintains_close_cover; eauto | intros _; apply maintains_ret].
  - apply maintains_bind; [apply maintains_stop_cover; eauto | intros _; apply maintains_ret].
Qed.

Lemma lifetime_after_calls cs self w :
  P self w -> P (fst (after_calls srv cs self w)) (snd (after_calls srv cs self w)).
Proof.
  revert self w. induction cs as [| c cs IH]; intros self w H; cbn [after_calls].
  - exact H.
  - apply IH. apply lifetime_perform. exact H.
Qed.

End Lifetime.

(** Closes the side conditions of an invariant: the attributes it reads are
    not the ones assigned. *)
Ltac stable := intros; cbn in *; intuition (auto; congruence).

(** The object that [__init__] returns, stage by stage. *)
Lemma __init___returns srv args w obj w' :
  __init__ srv args w = (Ok obj, w') ->
  exists s1 w1 s2 w2,
    init_token srv (fresh args) w = Out (Ok tt) s1 w1
    /\ init_device srv s1 w1 = Out (Ok tt) s2 w2
    /\ update srv s2 w2 = Out (Ok tt) obj w'.
Proof.
  intros H. unfold __init__ in H. cbv zeta in H.
  destruct (value (init_body srv (fresh args) w)) as [[] | e] eqn:Hv; [| discriminate H].
  injection H as <- <-.
  unfold init_body in *.
  destruct (init_token srv (fresh args) w) as [[[] | e1] s1 w1] eqn:H1.
  2: { rewrite (bind_raise _ _ _ _ e1) in Hv by (rewrite H1; reflexivity).
       discriminate Hv. }
  rewrite (bind_ok _ _ _ _ tt) in * by (rewrite H1; reflexivity).
  rewrite H1 in *. cbn [object world] in *.
  destruct (init_device srv s1 w1) as [[[] | e2] s2 w2] eqn:H2.
  2: { rewrite (bind_raise _ _ _ _ e2) in Hv by (rewrite H2; reflexivity).
       discriminate Hv. }
  rewrite (bind_ok _ _ _ _ tt) in * by (rewrite H2; reflexivity).
  rewrite H2 in *. cbn [object world] in *.
  rewrite init_try_is_update in *.
  exists s1, w1, s2, w2.
  split; [first [reflexivity | assumption] |].
  split; [first [reflexivity | assumption] |].
  destruct (update srv s2 w2) as [v o' wo]. cbn [value object world] in *.
  rewrite Hv. reflexivity.
Qed.

Lemma constructed_has_token srv args w obj w' :
  __init__ srv args w = (Ok obj, w') -> exists t, access_token obj = Some t.
Proof.
  intros H. destruct (__init___returns _ _ _ _ _ H) as (s1 & w1 & s2 & w2 & _ & _ & Hu).
  destruct (access_token s2) as [t |] eqn:Ht.
  - exists t.
    assert (Hm : maintains (fun s _ => access_token s = Some t) (update srv))
      by (apply lifetime_update; auto).
    specialize (Hm s2 w2 Ht). rewrite Hu in Hm. exact Hm.
  - rewrite (update_no_token _ _ _ Ht) in Hu. discriminate Hu.
Qed.

Lemma init_body_keeps_configuration srv args w :
  let s := object (init_body srv (fresh args) w) in
  _name s = arg_name args /\ device_name s = arg_device args
  /\ _available s = true /\ time_in_state s = None.
Proof.
  cbv zeta. unfold init_body.
  apply (maintains_bind
           (fun s _ => _name s = arg_name args /\ device_name s = arg_device args
                       /\ _available s = true /\ time_in_state s = None)).
  - apply maintains_init_token; stable.
  - intros _. apply maintains_bind.
    + apply maintains_init_device; stable.
    + intros _. apply lifetime_init_try; stable.
  - repeat split.
Qed.

(** X15: when the listing has no automation of the configured name, the
    constructed entity has the device id [None], for good, and its diagnosis
    and command urls carry the text None in place of the id. *)
Theorem unlisted_device_polls_none srv args w t l obj w' cs :
  arg_access_token args = Some t ->
  get_users srv (users_url (fresh args)) (length (requests w)) = inr (Some (Some l)) ->
  Forall (fun b => ~ named (arg_device args) b) l ->
  __init__ srv args w = (Ok obj, w') ->
  device_id (fst (after_calls srv cs obj w')) = None
  /\ forall what,
       execute_url (fst (after_calls srv cs obj w')) what
       = "https://ucontrol-dispatcher.bft-automation.com/automations/None/execute/" ++ what.
Proof.
  intros Htoken Hlist Hnone H.
  destruct (__init___returns _ _ _ _ _ H) as (s1 & w1 & s2 & w2 & H1 & H2 & Hu).
  rewrite (init_token_supplied _ _ _ t) in H1 by exact Htoken.
  injection H1 as <- <-.
  assert (Hid : value (get_device_id srv (fresh args) w) = Ok None).
  { rewrite (get_device_id_listed _ _ _ _ Hlist). apply find_automation_first. exact Hnone. }
  rewrite init_device_looks_up in H2 by reflexivity. rewrite Hid in H2.
  injection H2 as <- _.
  assert (Hobj : device_id obj = None
                 /\ dispatcher_api_url obj
                    = "https://ucontrol-dispatcher.bft-automation.com/automations").
  { assert (Hm : maintains
                   (fun s _ => device_id s = None
                               /\ dispatcher_api_url s
                                  = "https://ucontrol-dispatcher.bft-automation.com/automations")
                   (update srv)) by (apply lifetime_update; stable).
    specialize (Hm (with_device_id None (fresh args)) w2).
    rewrite Hu in Hm. apply Hm. split; reflexivity. }
  pose proof (lifetime_after_calls
                (fun s _ => device_id s = None
                            /\ dispatcher_api_url s
                               = "https://ucontrol-dispatcher.bft-automation.com/automations"))
    as Hcalls.
  destruct (Hcalls ltac:(stable) ltac:(stable) ltac:(stable) ltac:(stable) srv cs obj w' Hobj)
    as [Hdev Hurl].
  split; [exact Hdev |].
  intros what. unfold execute_url. rewrite Hdev, Hurl. reflexivity.
Qed.

Lemma unlisted_device_polls_none_witness :
  exists obj w',
    __init__ refusing side_gate_args idle_world = (Ok obj, w')
    /\ device_id obj = None
    /\ execute_url obj "diagnosis"
       = "https://ucontrol-dispatcher.bft-automation.com/automations/None/execute/diagnosis".
Proof.
  eexists. eexists. split.
  - vm_compute. reflexivity.
  - destruct (unlisted_device_polls_none refusing side_gate_args idle_world "token"
                [mkAutomation "a1b2" "front gate"] _ _ []
                eq_refl eq_refl
                ltac:(constructor; [discriminate | constructor])
                ltac:(vm_compute; reflexivity))
      as [Hdev Hurl].
    split; [exact Hdev | apply (Hurl "diagnosis")].
Defined.

(** X16: a constructed entity keeps, through any sequence of updates and
    commands, the configured name and device name, the token and device id
    it was built with, and it stays available. *)
Theorem constructed_keeps_configuration srv args w obj w' cs :
  __init__ srv args w = (Ok obj, w') ->
  name (fst (after_calls srv cs obj w')) = arg_name args
  /\ device_name (fst (after_calls srv cs obj w')) = arg_device args
  /\ available (fst (after_calls srv cs obj w')) = true
  /\ access_token (fst (after_calls srv cs obj w')) = access_token obj
  /\ device_id (fst (after_calls srv cs obj w')) = device_id obj.
Proof.
  intros H.
  assert (Hobj : _name obj = arg_name args /\ device_name obj = arg_device args
                 /\ _available obj = true /\ time_in_state obj = None).
  { pose proof (init_body_keeps_configuration srv args w) as Hbody. cbv zeta in Hbody.
    unfold __init__ in H. cbv zeta in H.
    destruct (value (init_body srv (fresh args) w)); [| discriminate H].
    injection H as <- _. exact Hbody. }
  pose proof (lifetime_after_calls
                (fun s _ => (_name s = arg_name args /\ device_name s = arg_device args
                             /\ _available s = true /\ time_in_state s = None)
                            /\ access_token s = access_token obj
                            /\ device_id s = device_id obj)) as Hcalls.
  destruct (Hcalls ltac:(stable) ltac:(stable) ltac:(stable) ltac:(stable) srv cs obj w')
    as ((Hn & Hd & Ha & _) & Ht & Hi); auto.
Qed.

Lemma constructed_keeps_configuration_witness :
  exists obj w',
    __init__ refusing gate_args idle_world = (Ok obj, w')
    /\ name (fst (after_calls refusing [CloseCover; Update] obj w')) = Some "Gate"
    /\ available (fst (after_calls refusing [CloseCover; Update] obj w')) = true.
Proof.
  eexists. eexists. split.
  - vm_compute. reflexivity.
  - destruct (constructed_keeps_configuration refusing gate_args idle_world _ _
                [CloseCover; Update] ltac:(vm_compute; reflexivity))
      as (Hname & _ & Havail & _).
    split; assumption.
Defined.

(** X17: the state attributes of a constructed entity, after any sequence
    of updates and commands, are the access token and nothing else:
    [time_in_state] is never assigned, so it is never reported. *)
Theorem attributes_are_the_token K srv args w obj w' cs :
  __init__ srv args w = (Ok obj, w') ->
  exists t,
    access_token obj = Some t
    /\ device_state_attributes K (fst (after_calls srv cs obj w')) = {[K := JStr t]}.
Proof.
  intros H. destruct (constructed_has_token _ _ _ _ _ H) as [t Ht].
  exists t. split; [exact Ht |].
  assert (Hobj : time_in_state obj = None /\ access_token obj = Some t).
  { split; [| exact Ht].
    pose proof (init_body_keeps_configuration srv args w) as Hbody. cbv zeta in Hbody.
    unfold __init__ in H. cbv zeta in H.
    destruct (value (init_body srv (fresh args) w)); [| discriminate H].
    injection H as <- _. apply Hbody. }
  pose proof (lifetime_after_calls
                (fun s _ => time_in_state s = None /\ access_token s = Some t)) as Hcalls.
  destruct (Hcalls ltac:(stable) ltac:(stable) ltac:(stable) ltac:(stable) srv cs obj w' Hobj)
    as [Htime Htoken].
  unfold device_state_attributes. cbv zeta. rewrite Htime, Htoken.
  apply insert_empty.
Qed.

Lemma attributes_are_the_token_witness :
  exists obj w',
    __init__ refusing gate_args idle_world = (Ok obj, w')
    /\ device_state_attributes "access_token"
         (fst (after_calls refusing [Update; OpenCover] obj w'))
       = {["access_token" := JStr "token"]}.
Proof.
  eexists. eexists. split.
  - vm_compute. reflexivity.
  - destruct (attributes_are_the_token "access_token" refusing gate_args idle_world
                _ _ [Update; OpenCover] ltac:(vm_compute; reflexivity)) as (t & Ht & Hattrs).
    injection Ht as <-. exact Hattrs.
Defined.

Lemma __del___acquired srv self w t :
  _obtained_token self = Bound true ->
  access_token self = Some t ->
  requests (world (__del__ srv self w))
  = mkRequest DELETE (particle_url self ++ "/v1/access_tokens/" ++ t) (Some 10)
    :: requests w
  /\ value (__del__ srv self w)
     = match delete_access_token srv (particle_url self ++ "/v1/access_tokens/" ++ t)
               (length (requests w)) with
       | inl f => Raise (exn_of_failure f)
       | inr _ => Ok tt
       end.
Proof.
  intros Hattr Htoken.
  assert (Hrun : __del__ srv self w = bind (remove_token srv) (fun _ => ret tt) self w).
  { unfold __del__. unfold bind at 1. unfold get_self. cbn [value object world].
    rewrite Hattr, Htoken. reflexivity. }
  rewrite Hrun. clear Hrun.
  unfold remove_token, bind, get_self, http, ret. cbn [value object world].
  rewrite Htoken. cbn [py_str].
  destruct (delete_access_token srv _ _); split; reflexivity.
Qed.

(** X18: when the constructor obtained the token itself, [__del__] after
    any sequence of calls issues one DELETE of that token with the timeout of
    10, returns when it is answered and raises the transport failure
    otherwise. *)
Theorem teardown_revokes_acquired_token srv args w obj w' cs :
  arg_access_token args = None ->
  __init__ srv args w = (Ok obj, w') ->
  exists t,
    access_token obj = Some t
    /\ requests (world (__del__ srv (fst (after_calls srv cs obj w'))
                          (snd (after_calls srv cs obj w'))))
       = mkRequest DELETE (particle_url obj ++ "/v1/access_tokens/" ++ t) (Some 10)
         :: requests (snd (after_calls srv cs obj w'))
    /\ value (__del__ srv (fst (after_calls srv cs obj w')) (snd (after_calls srv cs obj w')))
       = match delete_access_token srv (particle_url obj ++ "/v1/access_tokens/" ++ t)
                 (length (requests (snd (after_calls srv cs obj w')))) with
         | inl f => Raise (exn_of_failure f)
         | inr _ => Ok tt
         end.
Proof.
  intros Hnone H. destruct (constructed_has_token _ _ _ _ _ H) as [t Ht].
  exists t. split; [exact Ht |].
  assert (Hobj : _obtained_token obj = Bound true).
  { destruct (__init___returns _ _ _ _ _ H) as (s1 & w1 & s2 & w2 & H1 & H2 & Hu).
    assert (Hs1 : _obtained_token s1 = Bound true).
    { rewrite init_token_acquires in H1 by exact Hnone.
      destruct (value (get_token srv (fresh args) w)); [| discriminate H1].
      injection H1 as <- _. reflexivity. }
    assert (Hs2 : _obtained_token s2 = Bound true).
    { assert (Hm : maintains (fun s _ => _obtained_token s = Bound true) (init_device srv))
        by (apply maintains_init_device; stable).
      specialize (Hm s1 w1 Hs1). rewrite H2 in Hm. exact Hm. }
    assert (Hm : maintains (fun s _ => _obtained_token s = Bound true) (update srv))
      by (apply lifetime_update; stable).
    specialize (Hm s2 w2 Hs2). rewrite Hu in Hm. exact Hm. }
  pose proof (lifetime_after_calls
                (fun s _ => _obtained_token s = Bound true /\ access_token s = Some t
                            /\ particle_url s = particle_url obj)) as Hcalls.
  destruct (Hcalls ltac:(stable) ltac:(stable) ltac:(stable) ltac:(stable) srv cs obj w')
    as (Hattr & Htoken & Hurl); [auto |].
  rewrite <- Hurl. apply __del___acquired; assumption.
Qed.

Lemma teardown_revokes_acquired_token_witness :
  exists obj w',
    __init__ (answering (sample (JInt 0) (JInt 0) (JInt 0) (JInt 0)) ∅) tokenless_args idle_world
    = (Ok obj, w')
    /\ value (__del__ (answering (sample (JInt 0) (JInt 0) (JInt 0) (JInt 0)) ∅) obj w')
       = Ok tt.
Proof.
  eexists. eexists. split.
  - vm_compute. reflexivity.
  - destruct (teardown_revokes_acquired_token
                (answering (sample (JInt 0) (JInt 0) (JInt 0) (JInt 0)) ∅)
                tokenless_args idle_world _ _ [] eq_refl ltac:(vm_compute; reflexivity))
      as (t & _ & _ & Hvalue).
    exact Hvalue.
Defined.

(** ** The platform *)

Section PlatformFacts.

Variables CONF_NAME CONF_DEVICE CONF_USERNAME CONF_PASSWORD CONF_ACCESS_TOKEN : string.
Variable srv : Server.

Abbreviation args_of' := (args_of CONF_NAME CONF_DEVICE CONF_USERNAME CONF_PASSWORD CONF_ACCESS_TOKEN).
Abbreviation construct_covers' :=
  (construct_covers CONF_NAME CONF_DEVICE CONF_USERNAME CONF_PASSWORD CONF_ACCESS_TOKEN srv).
Abbreviation setup_platform' :=
  (setup_platform CONF_NAME CONF_DEVICE CONF_USERNAME CONF_PASSWORD CONF_ACCESS_TOKEN srv).

Abbreviation configured_by' := (configured_by CONF_NAME CONF_DEVICE).

Lemma construct_covers_app devices devices' covers w :
  construct_covers' (devices ++ devices')%list covers w
  = match construct_covers' devices covers w with
    | (Ok covers', w') => construct_covers' devices' covers' w'
    | (Raise e, w') => (Raise e, w')
    end.
Proof.
  revert covers w. induction devices as [| [label device_config] devices IH];
    intros covers w; cbn [construct_covers app].
  - reflexivity.
  - destruct (__init__ srv (args_of' device_config) w) as [[cover | e] w'].
    + apply IH.
    + reflexivity.
Qed.

Lemma construct_covers_configured devices covers w covers' w' :
  construct_covers' devices covers w = (Ok covers', w') ->
  exists new, covers' = (covers ++ new)%list /\ Forall2 configured_by' devices new.
Proof.
  revert covers w. induction devices as [| [label device_config] devices IH];
    intros covers w H; cbn [construct_covers] in H.
  - injection H as <- _. exists []. split; [symmetry; apply app_nil_r | constructor].
  - destruct (__init__ srv (args_of' device_config) w) as [[cover | e] w1] eqn:Hinit;
      [| discriminate H].
    destruct (IH _ _ H) as (new & -> & Hnew).
    exists (cover :: new). split; [rewrite <- List.app_assoc; reflexivity |].
    constructor; [| exact Hnew].
    pose proof (init_body_keeps_configuration srv (args_of' device_config) w) as Hbody.
    cbv zeta in Hbody. unfold __init__ in Hinit. cbv zeta in Hinit.
    destruct (value (init_body srv (fresh (args_of' device_config)) w)); [| discriminate Hinit].
    injection Hinit as <- _.
    destruct Hbody as (Hn & Hd & Ha & _). repeat split; assumption.
Qed.

(** X19: when [setup_platform] reaches [add_entities], it adds one entity
    per configured device, in the order of the configuration, each with the
    name and device name of its configuration, and available. *)
Theorem setup_platform_adds_configured_covers devices w covers w' :
  setup_platform CONF_NAME CONF_DEVICE CONF_USERNAME CONF_PASSWORD CONF_ACCESS_TOKEN
    srv devices w = (Ok covers, w') ->
  Forall2 (configured_by CONF_NAME CONF_DEVICE) devices covers.
Proof.
  intros H. destruct (construct_covers_configured _ _ _ _ _ H) as (new & -> & Hnew).
  exact Hnew.
Qed.

(** X20: when the constructor of a device raises, [setup_platform] raises
    the same exception in the world that constructor left: the later devices
    are not constructed and [add_entities] is not called. *)
Theorem setup_platform_stops_at_first_failure before label device_config after
    w covers w1 e :
  setup_platform CONF_NAME CONF_DEVICE CONF_USERNAME CONF_PASSWORD CONF_ACCESS_TOKEN
    srv before w = (Ok covers, w1) ->
  fst (__init__ srv (args_of' device_config) w1) = Raise e ->
  setup_platform CONF_NAME CONF_DEVICE CONF_USERNAME CONF_PASSWORD CONF_ACCESS_TOKEN
    srv (before ++ (label, device_config) :: after)%list w
  = (Raise e, snd (__init__ srv (args_of' device_config) w1)).
Proof.
  intros Hbefore Hraise. unfold setup_platform in *.
  rewrite construct_covers_app, Hbefore. cbn [construct_covers].
  destruct (__init__ srv (args_of' device_config) w1) as [[cover | e'] w2];
    cbn [fst snd] in *; [discriminate Hraise | congruence].
Qed.

End PlatformFacts.

Lemma setup_platform_adds_configured_covers_witness :
  exists covers w',
    setup_platform "name" "device" "username" "password" "access_token" refusing
      [("front", front_config)] idle_world
    = (Ok covers, w')
    /\ Forall2 (configured_by "name" "device") [("front", front_config)] covers.
Proof.
  eexists. eexists. split.
  - vm_compute. reflexivity.
  - eapply (setup_platform_adds_configured_covers
              "name" "device" "username" "password" "access_token" refusing
              [("front", front_config)] idle_world).
    vm_compute. reflexivity.
Defined.

Lemma setup_platform_stops_at_first_failure_witness :
  fst (setup_platform "name" "device" "username" "password" "access_token" refusing
         ([("front", front_config)] ++ ("back", back_config) :: [("front", front_config)])
         idle_world)
  = Raise ConnectionError.
Proof.
  erewrite (setup_platform_stops_at_first_failure
              "name" "device" "username" "password" "access_token" refusing
              [("front", front_config)] "back" back_config [("front", front_config)]
              idle_world _ _ ConnectionError).
  - reflexivity.
  - vm_compute. reflexivity.
  - vm_compute. reflexivity.
Defined.
